(** * Tenant-scoped session layer: client session manager, row-level
      security policies and refresh-token rotation.

    The development follows the repository:
    - [JS]        string operations the TypeScript sources rely on;
    - [Client]    [frontend/src/lib/api.ts] (token variable, request and
                  response interceptors) and the [AuthProvider] context;
    - [RegisterPage]  the registration page's [handleSubmit];
    - [Db]        the tables and row-level-security policies of [db/init.sql],
                  for the roles that bypass them and the roles they bind;
    - [Schema]    the keys, unique columns and foreign keys of [db/init.sql],
                  with INSERT and DELETE as whole statements;
    - [Rotator]   the refresh rotator, whose server code is not part of the
                  sources and is modelled from the specification.

    Definitions come first; the theorems follow in the second half. *)

From Stdlib Require Import ZArith NArith Lia Ascii String.
From stdpp Require Import gmap strings list fin_maps.

(* ===================================================================== *)
(** * JavaScript strings *)
(* ===================================================================== *)

Module JS.

(** A JavaScript string is a sequence of UTF-16 code units; [length] counts
    code units. *)
Definition code_unit := N.
Definition jsstring := list code_unit.

(** String literals of the sources are ASCII. *)
Definition js (s : string) : jsstring :=
  map N_of_ascii (String.list_ascii_of_string s).

Fixpoint startsWith (s needle : jsstring) : bool :=
  match needle, s with
  | [], _ => true
  | _ :: _, [] => false
  | c :: needle', d :: s' => N.eqb c d && startsWith s' needle'
  end.

(** [s.includes(needle)] *)
Fixpoint includes (s needle : jsstring) : bool :=
  startsWith s needle ||
  match s with
  | [] => false
  | _ :: s' => includes s' needle
  end.

Definition jsstring_eqb (a b : jsstring) : bool := bool_decide (a = b).

Global Arguments js : simpl never.

End JS.

Import JS.

(* ===================================================================== *)
(** * The API client ([frontend/src/lib/api.ts]) and the auth context *)
(* ===================================================================== *)

Module Client.

(** [interface User] of the auth context; at run time a field read from a
    response body that lacks it is [undefined]. *)
Record User := mkUser {
  user_id : option jsstring;
  tenant_id : option jsstring;
  email : option jsstring
}.

Inductive method := GET | POST | DELETE.

(** JSON body of a request: the string fields the pages send. *)
Definition payload := list (string * jsstring).

(** The axios request config as far as the interceptors read and write it.
    [url] is optional in axios ([originalRequest.url?.includes]); [_retry]
    is the flag the response interceptor adds. *)
Record config := mkConfig {
  url : option jsstring;
  http_method : method;
  data : payload;
  Authorization : option jsstring;
  _retry : bool
}.

Definition with_Authorization (h : jsstring) (c : config) : config :=
  {| url := url c; http_method := http_method c; data := data c;
     Authorization := Some h; _retry := _retry c |}.

Definition with_retry (c : config) : config :=
  {| url := url c; http_method := http_method c; data := data c;
     Authorization := Authorization c; _retry := true |}.

(** Response bodies ([response.data]), by what the client reads of them.
    Reading a field of the JSON value [null] throws a TypeError; of every
    other value that lacks the field it gives [undefined]. *)
Inductive body :=
  | AuthBody (access_token uid tid mail : jsstring)
  | TenantsBody (l : list (jsstring * jsstring))   (* [{id, name}, ...] *)
  | DetailBody (detail : jsstring)                 (* {detail: "..."} *)
  | DetailValueBody   (* {detail: v}, v truthy and no string: the list of a 422 *)
  | NullBody          (* the JSON value null *)
  | OtherBody.        (* any other value, without these fields: {}, the empty
                         body of a 204, ... *)

Record response := mkResponse { status : Z; rdata : body }.

(** What comes back for a request: a response, or nothing (network
    failure), in which case [error.response] is undefined. *)
Definition reply := option response.

Definition access_token_of (b : body) : option jsstring :=
  match b with AuthBody t _ _ _ => Some t | _ => None end.

Definition user_of (b : body) : User :=
  match b with
  | AuthBody _ u t m => mkUser (Some u) (Some t) (Some m)
  | _ => mkUser None None None
  end.

Definition detail_of (r : reply) : option jsstring :=
  match r with
  | Some (mkResponse _ (DetailBody d)) => Some d
  | _ => None
  end.

(** [response.data.access_token] and the destructuring
    [const { access_token, ... } = response.data] throw on [null]. *)
Definition is_null (b : body) : bool :=
  match b with NullBody => true | _ => false end.

(** axios resolves a request when the status is 2xx (the default
    [validateStatus]) and rejects it otherwise. *)
Definition ok (r : reply) : option response :=
  match r with
  | Some resp =>
      if (200 <=? status resp)%Z && (status resp <? 300)%Z then Some resp else None
  | None => None
  end.

Definition status_is (code : Z) (r : reply) : bool :=
  match r with Some resp => (status resp =? code)%Z | None => false end.

(** What a [catch] receives. *)
Inductive failure :=
  | ApiError (c : config) (r : reply)   (* error of a request sent through [api] *)
  | RefreshError (r : reply)            (* error of the interceptor's refresh POST *)
  | TypeError.                          (* thrown by reading a field of [null]; it has no [response] *)

Inductive outcome :=
  | Resolved (r : response)
  | Rejected (e : failure).

(** Where a request issued through [api] is suspended. *)
Inductive phase :=
  | AwaitingServer    (* on the network *)
  | AwaitingRefresh.  (* in the response interceptor, at [await axios.post(.../auth/refresh)] *)

(** What the client puts on the network. *)
Inductive wire :=
  | ApiRequest (id : nat) (c : config)
  | RefreshCall (id : nat).   (* POST /auth/refresh issued by the interceptor while handling request [id] *)

Global Instance phase_eq_dec : EqDecision phase.
Proof. solve_decision. Defined.

(** The client runtime: the module variable [accessToken] of api.ts, the
    [AuthProvider] state, [window.location.pathname] ([None] where [window]
    is undefined), and the requests in flight. *)
Record client := mkClient {
  accessToken : option jsstring;
  user : option User;
  authLoading : bool;
  pathname : option jsstring;
  next_id : nat;
  pending : gmap nat (phase * config);
  settled : gmap nat outcome;
  wire_log : list wire
}.

Definition setAccessToken (t : option jsstring) (s : client) : client :=
  {| accessToken := t; user := user s; authLoading := authLoading s;
     pathname := pathname s; next_id := next_id s; pending := pending s;
     settled := settled s; wire_log := wire_log s |}.

Definition setUser (u : option User) (s : client) : client :=
  {| accessToken := accessToken s; user := u; authLoading := authLoading s;
     pathname := pathname s; next_id := next_id s; pending := pending s;
     settled := settled s; wire_log := wire_log s |}.

Definition setIsLoading (b : bool) (s : client) : client :=
  {| accessToken := accessToken s; user := user s; authLoading := b;
     pathname := pathname s; next_id := next_id s; pending := pending s;
     settled := settled s; wire_log := wire_log s |}.

Definition set_pathname (p : option jsstring) (s : client) : client :=
  {| accessToken := accessToken s; user := user s; authLoading := authLoading s;
     pathname := p; next_id := next_id s; pending := pending s;
     settled := settled s; wire_log := wire_log s |}.

Definition set_pending (m : gmap nat (phase * config)) (s : client) : client :=
  {| accessToken := accessToken s; user := user s; authLoading := authLoading s;
     pathname := pathname s; next_id := next_id s; pending := m;
     settled := settled s; wire_log := wire_log s |}.

Definition emit (w : wire) (s : client) : client :=
  {| accessToken := accessToken s; user := user s; authLoading := authLoading s;
     pathname := pathname s; next_id := next_id s; pending := pending s;
     settled := settled s; wire_log := w :: wire_log s |}.

Definition bump_id (s : client) : client :=
  {| accessToken := accessToken s; user := user s; authLoading := authLoading s;
     pathname := pathname s; next_id := S (next_id s); pending := pending s;
     settled := settled s; wire_log := wire_log s |}.

(** The promise of request [id] settles: it leaves [pending]. *)
Definition settle (id : nat) (o : outcome) (s : client) : client :=
  {| accessToken := accessToken s; user := user s; authLoading := authLoading s;
     pathname := pathname s; next_id := next_id s;
     pending := delete id (pending s);
     settled := <[id := o]> (settled s); wire_log := wire_log s |}.

(** [if (accessToken)]: null, undefined and the empty string are falsy. *)
Definition truthy (t : option jsstring) : bool :=
  match t with Some (_ :: _) => true | _ => false end.

(** [`Bearer ${t}`]; an undefined [t] prints as "undefined". *)
Definition bearer (t : option jsstring) : jsstring :=
  js "Bearer " ++ match t with Some s => s | None => js "undefined" end.

(** Request interceptor: attach the access token. *)
Definition request_interceptor (tok : option jsstring) (c : config) : config :=
  if truthy tok then with_Authorization (bearer tok) c else c.

(** [originalRequest.url?.includes('/auth/')], then negated: undefined
    counts as false. *)
Definition isAuthEndpoint (c : config) : bool :=
  match url c with
  | Some u => includes u (js "/auth/")
  | None => false
  end.

(** The guard of the response interceptor's error handler. *)
Definition should_refresh (c : config) (r : reply) : bool :=
  status_is 401 r && negb (_retry c) && negb (isAuthEndpoint c).

(** [api(config)]: run the request interceptor and put the request on the
    network as request [id]. *)
Definition send (id : nat) (c : config) (s : client) : client :=
  let c' := request_interceptor (accessToken s) c in
  set_pending (<[id := (AwaitingServer, c')]> (pending s)) (emit (ApiRequest id c') s).

(** Response interceptor, error handler, up to its [await]. *)
Definition on_error (id : nat) (c : config) (r : reply) (s : client) : client :=
  if should_refresh c r then
    set_pending (<[id := (AwaitingRefresh, with_retry c)]> (pending s))
                (emit (RefreshCall id) s)
  else settle id (Rejected (ApiError c r)) s.

(** [window.location.href = '/login'] unless already on a login path. *)
Definition redirect_to_login (s : client) : client :=
  match pathname s with
  | Some p => if includes p (js "/login") then s else set_pathname (Some (js "/login")) s
  | None => s
  end.

(** Response interceptor, error handler, after its [await]. The replay
    [api(originalRequest)] passes the config object that was flagged
    before the [await]; axios carries the [_retry] key over when it merges
    the config, so the replayed request is flagged. The replay is returned
    without [await]: its failure comes back through the interceptor, not
    through the [catch]. A 2xx answer whose body is [null] makes
    [response.data.access_token] throw inside the [try], so the [catch]
    runs for it as for a failed refresh. *)
Definition on_refresh (id : nat) (c : config) (r : reply) (s : client) : client :=
  match ok r with
  | Some resp =>
      if is_null (rdata resp) then
        settle id (Rejected TypeError) (redirect_to_login (setAccessToken None s))
      else
        let newToken := access_token_of (rdata resp) in
        send id (with_Authorization (bearer newToken) c) (setAccessToken newToken s)
  | None =>
      settle id (Rejected (RefreshError r)) (redirect_to_login (setAccessToken None s))
  end.

Inductive event :=
  | Call (m : method) (u : jsstring) (d : payload)   (* api.get / api.post / api.delete *)
  | Response (id : nat) (r : reply)                  (* the server answers request [id] *)
  | RefreshResponse (id : nat) (r : reply)           (* the refresh POST of request [id] returns *)
  | Login (token : option jsstring) (u : User)       (* AuthProvider.login *)
  | Logout.                                          (* AuthProvider.logout *)

(** One turn of the event loop. *)
Definition step (e : event) (s : client) : client :=
  match e with
  | Call m u d =>
      bump_id (send (next_id s) (mkConfig (Some u) m d None false) s)
  | Response id r =>
      match pending s !! id with
      | Some (AwaitingServer, c) =>
          match ok r with
          | Some resp => settle id (Resolved resp) s
          | None => on_error id c r s
          end
      | _ => s
      end
  | RefreshResponse id r =>
      match pending s !! id with
      | Some (AwaitingRefresh, c) => on_refresh id c r s
      | _ => s
      end
  | Login token u => setUser (Some u) (setAccessToken token s)
  | Logout => setUser None (setAccessToken None s)
  end.

(** Events are processed in arrival order. *)
Definition run (tr : list event) (s : client) : client :=
  fold_left (fun s e => step e s) tr s.

Definition init (path : option jsstring) : client :=
  {| accessToken := None; user := None; authLoading := true;
     pathname := path; next_id := 0; pending := ∅; settled := ∅; wire_log := [] |}.

(** Refresh exchanges that have been sent and not yet answered. *)
Definition outstanding_refreshes (s : client) : nat :=
  size (filter (fun kv => (snd kv).1 = AwaitingRefresh) (pending s)).

Definition is_refresh_call (w : wire) : bool :=
  match w with RefreshCall _ => true | _ => false end.

Definition is_send_of (id : nat) (w : wire) : bool :=
  match w with ApiRequest i _ => Nat.eqb i id | _ => false end.

Definition is_refresh_of (id : nat) (w : wire) : bool :=
  match w with RefreshCall i => Nat.eqb i id | _ => false end.

Fixpoint count_wire (p : wire -> bool) (l : list wire) : nat :=
  match l with
  | [] => 0
  | w :: l' => (if p w then 1 else 0) + count_wire p l'
  end.

(** Refresh calls made so far. *)
Definition refresh_calls (s : client) : nat := count_wire is_refresh_call (wire_log s).

(** How often request [id] went on the network, and how many refresh calls
    were made on its behalf. *)
Definition sends (id : nat) (s : client) : nat := count_wire (is_send_of id) (wire_log s).
Definition refreshes (id : nat) (s : client) : nat := count_wire (is_refresh_of id) (wire_log s).

(** The exported API functions. *)
Definition getTenants := Call GET (js "/auth/tenants") [].
Definition register (d : payload) := Call POST (js "/auth/register") d.
Definition login (d : payload) := Call POST (js "/auth/login") d.
Definition refreshToken := Call POST (js "/auth/refresh") [].
Definition logout := Call POST (js "/auth/logout") [].
Definition listDatasets := Call GET (js "/datasets") [].
Definition getDataset (id : jsstring) := Call GET (js "/datasets/" ++ id) [].
Definition deleteDataset (id : jsstring) := Call DELETE (js "/datasets/" ++ id) [].

(** Calls whose URL contains /auth/. *)
Definition is_auth_call (e : event) : bool :=
  match e with
  | Call _ u _ => includes u (js "/auth/")
  | _ => false
  end.

(** [initAuth] of the [AuthProvider], after [await apiRefreshToken()]. The
    destructuring of [response.data] is inside the [try]: on a [null] body
    it throws and the [catch] runs. *)
Definition initAuth_resume (o : outcome) (s : client) : client :=
  setIsLoading false
    match o with
    | Resolved resp =>
        if is_null (rdata resp) then setUser None (setAccessToken None s)
        else setUser (Some (user_of (rdata resp)))
                     (setAccessToken (access_token_of (rdata resp)) s)
    | Rejected _ => setUser None (setAccessToken None s)
    end.

End Client.

(* ===================================================================== *)
(** * The registration page *)
(* ===================================================================== *)

Module RegisterPage.
Import Client.

Record Tenant := mkTenant { id : jsstring; name : jsstring }.

(** The [useState] cells of the page. *)
Record form := mkForm {
  email : jsstring;
  password : jsstring;
  confirmPassword : jsstring;
  tenantId : jsstring;
  tenants : list Tenant;
  error : jsstring;
  isLoading : bool
}.

Definition setError (e : jsstring) (f : form) : form :=
  {| email := email f; password := password f; confirmPassword := confirmPassword f;
     tenantId := tenantId f; tenants := tenants f; error := e; isLoading := isLoading f |}.

Definition setIsLoading (b : bool) (f : form) : form :=
  {| email := email f; password := password f; confirmPassword := confirmPassword f;
     tenantId := tenantId f; tenants := tenants f; error := error f; isLoading := b |}.

Definition setTenants (l : list Tenant) (f : form) : form :=
  {| email := email f; password := password f; confirmPassword := confirmPassword f;
     tenantId := tenantId f; tenants := l; error := error f; isLoading := isLoading f |}.

Definition setTenantId (t : jsstring) (f : form) : form :=
  {| email := email f; password := password f; confirmPassword := confirmPassword f;
     tenantId := t; tenants := tenants f; error := error f; isLoading := isLoading f |}.

(** [fetchTenants], run on mount: the call, and what follows its [await]. *)
Definition fetchTenants (c : client) : client := step getTenants c.

Definition fetchTenants_resume (o : outcome) (f : form) : form :=
  match o with
  | Resolved (mkResponse _ (TenantsBody l)) =>
      let ts := map (fun p => mkTenant (fst p) (snd p)) l in
      match ts with
      | t :: _ => setTenantId (id t) (setTenants ts f)
      | [] => setTenants ts f
      end
  | _ => setError (js "Failed to load tenants") f
  end.

(** [handleSubmit] up to its first [await]: the validation and, when it
    passes, the call of [apiRegister]. *)
Definition handleSubmit (f : form) (c : client) : form * client :=
  let f := setError [] f in
  if negb (jsstring_eqb (password f) (confirmPassword f)) then
    (setError (js "Passwords do not match") f, c)
  else if length (password f) <? 8 then
    (setError (js "Password must be at least 8 characters") f, c)
  else
    (setIsLoading true f,
     step (register [("email"%string, email f); ("password"%string, password f);
                     ("tenant_id"%string, tenantId f)]) c).

(** [err.response] *)
Definition response_of (e : failure) : reply :=
  match e with ApiError _ r => r | RefreshError r => r | TypeError => None end.

(** [err.response?.data?.detail || fallback] for a [detail] that is a
    string or is absent; [caught_message] covers a [detail] of another
    type. *)
Definition detail_or (e : failure) (fallback : jsstring) : jsstring :=
  match detail_of (response_of e) with
  | Some (c :: d) => c :: d
  | _ => fallback
  end.

(** Whether [err.response?.data?.detail] is a truthy value that is no
    string; the [||] then yields that value. *)
Definition detail_is_value (e : failure) : bool :=
  match response_of e with
  | Some (mkResponse _ DetailValueBody) => true
  | _ => false
  end.

(** The argument of [setError] in a [catch]: the text
    [err.response?.data?.detail || fallback], or [None] where the
    expression yields a value that is no string. *)
Definition caught_message (e : failure) (fallback : jsstring) : option jsstring :=
  if detail_is_value e then None else Some (detail_or e fallback).

(** [handleSubmit] after the [await]: the [catch] runs for a rejected call
    and for the TypeError of destructuring a [null] body. The result is
    [None] where [setError] receives a value that is no string, which the
    string cell [error] of [form] does not hold. *)
Definition handleSubmit_catch (e : failure) (f : form) (c : client) : option (form * client) :=
  match caught_message e (js "Registration failed. Please try again.") with
  | Some msg => Some (setIsLoading false (setError msg f), c)
  | None => None
  end.

Definition handleSubmit_resume (o : outcome) (f : form) (c : client) : option (form * client) :=
  match o with
  | Resolved resp =>
      if is_null (rdata resp) then handleSubmit_catch TypeError f c
      else
        Some (setIsLoading false f,
              set_pathname (Some (js "/dashboard"))
                (step (Login (access_token_of (rdata resp)) (user_of (rdata resp))) c))
  | Rejected e => handleSubmit_catch e f c
  end.

End RegisterPage.

(* ===================================================================== *)
(** * Tables and row-level security ([db/init.sql]) *)
(* ===================================================================== *)

(** Sessions are those of a role that is subject to row security: the
    policies below are what init.sql declares for such a role. *)
Module Db.

(** A uuid, in its canonical text form. *)
Definition uuid := string.

Record tenants_row := mkTenantRow {
  t_id : uuid; t_name : string; t_created_at : Z }.

Record users_row := mkUserRow {
  u_id : uuid; u_tenant_id : uuid; u_email : string; u_password_hash : string;
  u_created_at : Z }.

Record refresh_tokens_row := mkRefreshTokenRow {
  rt_id : uuid; rt_user_id : uuid; rt_token_hash : string; rt_expires_at : Z;
  rt_created_at : Z }.

Record datasets_row := mkDatasetRow {
  d_id : uuid; d_tenant_id : uuid; d_user_id : uuid; d_name : string;
  d_columns : string; d_row_count : Z; d_created_at : Z }.

Record dataset_rows_row := mkDatasetRowsRow {
  dr_id : uuid; dr_dataset_id : uuid; dr_tenant_id : uuid; dr_row_data : string }.

Inductive table := tenants | users | refresh_tokens | datasets | dataset_rows.

Inductive row :=
  | RTenant (r : tenants_row)
  | RUser (r : users_row)
  | RRefreshToken (r : refresh_tokens_row)
  | RDataset (r : datasets_row)
  | RDatasetRow (r : dataset_rows_row).

Definition table_of (r : row) : table :=
  match r with
  | RTenant _ => tenants
  | RUser _ => users
  | RRefreshToken _ => refresh_tokens
  | RDataset _ => datasets
  | RDatasetRow _ => dataset_rows
  end.

Global Instance table_eq_dec : EqDecision table.
Proof. solve_decision. Defined.

(** A database: the rows of all tables. *)
Definition database := list row.

(** [ALTER TABLE ... ENABLE ROW LEVEL SECURITY] *)
Definition row_security (t : table) : bool :=
  match t with
  | users | datasets | dataset_rows | refresh_tokens => true
  | tenants => false
  end.

(** The role a statement runs as, by how row security treats it. init.sql
    only ENABLEs row security on its tables: it does not FORCE it, creates
    no role and grants no privilege. *)
Inductive role :=
  | Bypassing    (* the owner of the tables, a superuser, a role with BYPASSRLS:
                    the policies are not applied *)
  | Restricted.  (* any other role that has been given access to the tables:
                    the policies are applied *)

(** A run-time setting such as [app.current_tenant_id], by what the cast
    [current_setting(name, true)::uuid] makes of it: never set on the
    connection (NULL), a text that is no uuid (the cast raises), or a
    uuid. The empty text that a connection holds once a transaction-local
    setting has ended is a text that is no uuid. A statement evaluates
    the cast for every row that satisfies its condition; whether it also
    evaluates it when no stored row does (before the scan, as for an
    index condition, or on rows before their condition is tested) is the
    planner's choice for the statement at hand, which [eager] records. *)
Inductive setting :=
  | Unset
  | Malformed (eager : bool)
  | IsUuid (u : uuid).

Record session := mkSession {
  session_role : role;
  current_tenant_id : setting;   (* app.current_tenant_id *)
  current_user_id : setting      (* app.current_user_id *)
}.

Inductive error :=
  | invalid_text_representation   (* the uuid cast failed *)
  | row_security_violation.       (* new row violates row-level security policy *)

Inductive result (A : Type) :=
  | Ok (a : A)
  | Err (e : error).
Arguments Ok {A} a.
Arguments Err {A} e.

Global Instance result_bind : MBind result := fun A B k x =>
  match x with Ok a => k a | Err e => Err e end.

(** [current_setting(name, true)::uuid]; [None] is SQL NULL. *)
Definition current_setting_uuid (g : setting) : result (option uuid) :=
  match g with
  | Unset => Ok None
  | Malformed _ => Err invalid_text_representation
  | IsUuid u => Ok (Some u)
  end.

(** SQL [=] on a NOT NULL column and a nullable value: three-valued. *)
Definition sql_eq (a : uuid) (b : option uuid) : option bool :=
  match b with
  | None => None
  | Some v => Some (String.eqb a v)
  end.

(** The [USING] expression of the policy on the row's table; [None] for a
    table without row security. *)
Definition policy_using (s : session) (r : row) : option (result (option bool)) :=
  match r with
  | RTenant _ => None
  | RUser u =>          (* users_tenant_isolation *)
      Some (v ← current_setting_uuid (current_tenant_id s); Ok (sql_eq (u_tenant_id u) v))
  | RDataset d =>       (* datasets_tenant_isolation *)
      Some (v ← current_setting_uuid (current_tenant_id s); Ok (sql_eq (d_tenant_id d) v))
  | RDatasetRow d =>    (* dataset_rows_tenant_isolation *)
      Some (v ← current_setting_uuid (current_tenant_id s); Ok (sql_eq (dr_tenant_id d) v))
  | RRefreshToken t =>  (* refresh_tokens_user_isolation *)
      Some (v ← current_setting_uuid (current_user_id s); Ok (sql_eq (rt_user_id t) v))
  end.

(** A row passes when the expression is true; false and NULL both fail.
    The policies are [FOR ALL] with [USING] only, so the same expression
    is the [WITH CHECK] of new rows. For a role that bypasses row security
    the expression is not evaluated. *)
Definition passes (s : session) (r : row) : result bool :=
  match session_role s with
  | Bypassing => Ok true
  | Restricted =>
      match policy_using s r with
      | None => Ok true
      | Some e => v ← e; Ok match v with Some true => true | _ => false end
      end
  end.

Definition in_table (t : table) (r : row) : bool := bool_decide (table_of r = t).

(** The setting the policy of a table reads. *)
Definition policy_setting (t : table) (s : session) : option setting :=
  match t with
  | tenants => None
  | users | datasets | dataset_rows => Some (current_tenant_id s)
  | refresh_tokens => Some (current_user_id s)
  end.

(** The cast of the table's policy raises whatever rows the statement's
    condition selects. *)
Definition raises_eagerly (t : table) (s : session) : bool :=
  match session_role s, policy_setting t s with
  | Restricted, Some (Malformed true) => true
  | _, _ => false
  end.

(** [SELECT * FROM t WHERE cond]: the rows of [t] that satisfy the
    condition and pass the policy. *)
Fixpoint select_rows (t : table) (cond : row -> bool) (s : session) (db : database)
  : result (list row) :=
  match db with
  | [] => Ok []
  | r :: db' =>
      if in_table t r && cond r then
        p ← passes s r;
        rest ← select_rows t cond s db';
        Ok (if p : bool then r :: rest else rest)
      else select_rows t cond s db'
  end.

Definition select (t : table) (cond : row -> bool) (s : session) (db : database)
  : result (list row) :=
  if raises_eagerly t s then Err invalid_text_representation
  else select_rows t cond s db.

(** The first step of [DELETE FROM t WHERE cond]: the rows of [t] that
    satisfy the condition and pass the policy are removed. The foreign
    keys of init.sql are [ON DELETE CASCADE]; the whole statement, with
    the rows that go along, is [Schema.delete_cascading]. *)
Fixpoint delete_rows (t : table) (cond : row -> bool) (s : session) (db : database)
  : result database :=
  match db with
  | [] => Ok []
  | r :: db' =>
      if in_table t r && cond r then
        p ← passes s r;
        rest ← delete_rows t cond s db';
        Ok (if p : bool then rest else r :: rest)
      else
        rest ← delete_rows t cond s db'; Ok (r :: rest)
  end.

Definition delete_targets (t : table) (cond : row -> bool) (s : session) (db : database)
  : result database :=
  if raises_eagerly t s then Err invalid_text_representation
  else delete_rows t cond s db.

(** [UPDATE t SET ... WHERE cond] as row security decides it; [set]
    assigns columns of a row of [t]. Old rows are filtered by the policy,
    new rows are checked against it. The keys, unique columns and foreign
    keys of the new rows are not checked here: an UPDATE that succeeds has
    this result, and one that fails here fails. *)
Fixpoint update_rows (t : table) (cond : row -> bool) (set : row -> row) (s : session)
  (db : database) : result database :=
  match db with
  | [] => Ok []
  | r :: db' =>
      if in_table t r && cond r then
        p ← passes s r;
        if p : bool then
          c ← passes s (set r);
          if c : bool then rest ← update_rows t cond set s db'; Ok (set r :: rest)
          else Err row_security_violation
        else rest ← update_rows t cond set s db'; Ok (r :: rest)
      else
        rest ← update_rows t cond set s db'; Ok (r :: rest)
  end.

Definition update (t : table) (cond : row -> bool) (set : row -> row) (s : session)
  (db : database) : result database :=
  if raises_eagerly t s then Err invalid_text_representation
  else update_rows t cond set s db.

(** The first step of [INSERT INTO ... VALUES (r)]: the new row is checked
    against the policy. The primary key, the unique columns and the
    foreign keys are checked after it; the whole statement is
    [Schema.insert_checked]. *)
Definition insert_policy (r : row) (s : session) (db : database) : result database :=
  c ← passes s r;
  if c : bool then Ok (db ++ [r]) else Err row_security_violation.

(** The TenantContext of a request, and a session in which it has been
    installed: both settings hold its ids. *)
Record TenantContext := mkContext { ctx_tenant_id : uuid; ctx_user_id : uuid }.

Definition installed (c : TenantContext) (s : session) : Prop :=
  current_tenant_id s = IsUuid (ctx_tenant_id c) /\
  current_user_id s = IsUuid (ctx_user_id c).

Definition install_as (ro : role) (c : TenantContext) : session :=
  mkSession ro (IsUuid (ctx_tenant_id c)) (IsUuid (ctx_user_id c)).

(** The sessions of a restricted role: with a context installed, and on a
    connection where the settings were never made. *)
Definition install (c : TenantContext) : session := install_as Restricted c.

Definition no_context : session := mkSession Restricted Unset Unset.

(** The tenant a user belongs to. *)
Fixpoint user_tenant (db : database) (uid : uuid) : option uuid :=
  match db with
  | [] => None
  | RUser u :: db' => if String.eqb (u_id u) uid then Some (u_tenant_id u) else user_tenant db' uid
  | _ :: db' => user_tenant db' uid
  end.

(** The tenant that owns a row: its [tenant_id] column, or for a refresh
    token the tenant of the user it belongs to. *)
Definition owner_tenant (db : database) (r : row) : option uuid :=
  match r with
  | RTenant _ => None
  | RUser u => Some (u_tenant_id u)
  | RDataset d => Some (d_tenant_id d)
  | RDatasetRow d => Some (dr_tenant_id d)
  | RRefreshToken t => user_tenant db (rt_user_id t)
  end.

(** The context resolved for the token of user [uid]. *)
Definition resolved_for (db : database) (uid : uuid) (c : TenantContext) : Prop :=
  ctx_user_id c = uid /\ user_tenant db uid = Some (ctx_tenant_id c).

(** What the session's settings must be for a row to pass. *)
Definition scope_matches (s : session) (r : row) : Prop :=
  match r with
  | RTenant _ => True
  | RUser u => current_tenant_id s = IsUuid (u_tenant_id u)
  | RDataset d => current_tenant_id s = IsUuid (d_tenant_id d)
  | RDatasetRow d => current_tenant_id s = IsUuid (dr_tenant_id d)
  | RRefreshToken t => current_user_id s = IsUuid (rt_user_id t)
  end.

(** The tenant directory as the registration page reads it. *)
Definition tenant_entry (r : row) : option (uuid * string) :=
  match r with RTenant t => Some (t_id t, t_name t) | _ => None end.

Definition directory (rows : list row) : list (uuid * string) :=
  omap tenant_entry rows.

Definition list_tenants (s : session) (db : database) : result (list (uuid * string)) :=
  rows ← select tenants (fun _ => true) s db; Ok (directory rows).

(** Seed data. *)
Definition acme : uuid := "a0eebc99-9c0b-4ef8-bb6d-6bb9bd380a11".
Definition globex : uuid := "b1eebc99-9c0b-4ef8-bb6d-6bb9bd380a22".
Definition initech : uuid := "c2eebc99-9c0b-4ef8-bb6d-6bb9bd380a33".

Definition seed : database :=
  [ RTenant (mkTenantRow acme "Acme Corporation" 0);
    RTenant (mkTenantRow globex "Globex Industries" 0);
    RTenant (mkTenantRow initech "Initech Solutions" 0) ].

End Db.

(* ===================================================================== *)
(** * The refresh rotator *)
(* ===================================================================== *)

(** Modelled from the spec: the refresh rotator of section 4.3 and the
    logout handler of section 6. The sources hold only the
    [refresh_tokens] table and the client's calls; the server code that
    issues, rotates and revokes tokens is not among them. Everything in
    this module follows the specification's wording. *)
Module Rotator.

(** Modelled from the spec: the states of a refresh-token record
    (section 4.3); the server code is not among the sources. *)
Inductive state := ISSUED | ACTIVE | ROTATED | EXPIRED | REVOKED.

Inductive error :=
  | InvalidToken
  | Expired
  | Conflict.   (* a storage constraint refused the transaction *)

(** The columns of [refresh_tokens] in init.sql, with the state of the
    record and the login session (chain) it continues. *)
Record token_record := mkRecord {
  id : nat;
  user_id : Db.uuid;
  token_hash : string;
  expires_at : Z;
  created_at : Z;
  status : state;
  chain : nat
}.

Definition store := list token_record.

Definition with_status (st : state) (r : token_record) : token_record :=
  {| id := id r; user_id := user_id r; token_hash := token_hash r;
     expires_at := expires_at r; created_at := created_at r;
     status := st; chain := chain r |}.

Definition live (st : state) : bool :=
  match st with
  | ISSUED | ACTIVE => true
  | ROTATED | EXPIRED | REVOKED => false
  end.

(** Claims of the access token a rotation returns. *)
Record claims := mkClaims { sub : Db.uuid; issued_at : Z; claims_expires_at : Z }.

Fixpoint lookup (h : string) (st : store) : option token_record :=
  match st with
  | [] => None
  | r :: st' => if String.eqb (token_hash r) h then Some r else lookup h st'
  end.

(** Operations of a storage transaction. *)
Inductive op :=
  | Mark (h : string) (to : state)   (* compare-and-set: live records with hash [h] move to [to] *)
  | Insert (r : token_record).       (* refused when the hash is taken: token_hash is UNIQUE *)

Definition mark (h : string) (to : state) (st : store) : store :=
  map (fun r => if String.eqb (token_hash r) h && live (status r)
                then with_status to r else r) st.

Definition apply_op (o : op) (st : store) : option store :=
  match o with
  | Mark h to =>
      match lookup h st with
      | Some r => if live (status r) then Some (mark h to st) else None
      | None => None
      end
  | Insert r =>
      match lookup (token_hash r) st with
      | Some _ => None
      | None => Some (st ++ [r])
      end
  end.

Fixpoint exec (ops : list op) (st : store) : option store :=
  match ops with
  | [] => Some st
  | o :: ops' =>
      match apply_op o st with
      | Some st' => exec ops' st'
      | None => None
      end
  end.

(** The store that survives when the transaction is interrupted after [k]
    of its operations: all of them, or none. *)
Definition durable (ops : list op) (k : nat) (st : store) : store :=
  if k <? length ops then st
  else match exec ops st with Some st' => st' | None => st end.

Section Rotator.

(** The one-way hash under which raw tokens are stored, and the lifetimes
    of the two kinds of token. *)
Variable hash : string -> string.
Variables accessTokenTTL refreshTokenTTL : Z.

(** Modelled from the spec: [issue] of the refresh rotator (section 4.3),
    whose server code is not among the sources. *)
Definition issue (now : Z) (uid : Db.uuid) (raw : string) (st : store)
  : store * option error :=
  let r := mkRecord (length st) uid (hash raw) (now + refreshTokenTTL) now ACTIVE (length st) in
  match exec [Insert r] st with
  | Some st' => (st', None)
  | None => (st, Some Conflict)
  end.

(** The transaction of a successful rotation of record [r]. *)
Definition rotation (now : Z) (r : token_record) (fresh : string) (st : store) : list op :=
  [ Mark (token_hash r) ROTATED;
    Insert (mkRecord (length st) (user_id r) (hash fresh) (now + refreshTokenTTL) now
                     ACTIVE (chain r)) ].

(** Modelled from the spec: [rotate] of the refresh rotator (section 4.3),
    whose server code is not among the sources. [fresh] is the new random
    raw token. *)
Definition rotate (now : Z) (raw fresh : string) (st : store)
  : store * (error + claims * string) :=
  match lookup (hash raw) st with
  | None => (st, inl InvalidToken)
  | Some r =>
      match status r with
      | ROTATED | REVOKED => (st, inl InvalidToken)
      | EXPIRED => (st, inl Expired)
      | ISSUED | ACTIVE =>
          if (expires_at r <? now)%Z then (st, inl Expired)
          else
            match exec (rotation now r fresh st) st with
            | Some st' =>
                (st', inr (mkClaims (user_id r) now (now + accessTokenTTL), fresh))
            | None => (st, inl Conflict)
            end
      end
  end.

(** Modelled from the spec: [revoke] of the refresh rotator (section 4.3),
    whose server code is not among the sources. *)
Definition revoke (raw : string) (st : store) : store :=
  mark (hash raw) REVOKED st.

(** Modelled from the spec: the handler of POST /auth/logout (section 6),
    whose server code is not among the sources: 204, with or without a
    refresh cookie. *)
Definition logout_endpoint (cookie : option string) (st : store) : store * Z :=
  match cookie with
  | Some raw => (revoke raw st, 204%Z)
  | None => (st, 204%Z)
  end.

(** A raw token is valid when its record is live and not past its expiry. *)
Definition valid (now : Z) (st : store) (raw : string) : bool :=
  match lookup (hash raw) st with
  | Some r => live (status r) && negb (expires_at r <? now)%Z
  | None => false
  end.

End Rotator.

(** Number of live records of a login-session chain. *)
Fixpoint live_in_chain (ch : nat) (st : store) : nat :=
  match st with
  | [] => 0
  | r :: st' =>
      (if Nat.eqb (chain r) ch && live (status r) then 1 else 0) + live_in_chain ch st'
  end.

End Rotator.

(* ===================================================================== *)
(** * Concrete sessions, databases and stores *)
(* ===================================================================== *)

Module Examples.
Import Client.

Definition unauthorized : reply := Some (mkResponse 401 OtherBody).

Definition refreshed (t : jsstring) : reply :=
  Some (mkResponse 200 (AuthBody t (js "u-1") (js "t-1") (js "a@acme.com"))).

Definition alice : User :=
  mkUser (Some (js "u-1")) (Some (js "t-1")) (Some (js "a@acme.com")).

(** A browser on the dashboard, logged in with an access token that the
    server no longer accepts. *)
Definition logged_in : client :=
  step (Login (Some (js "stale")) alice) (init (Some (js "/dashboard"))).

(** Two requests are sent; both come back 401 before any refresh returns. *)
Definition two_failures : list event :=
  [ listDatasets; getDataset (js "42");
    Response 0 unauthorized; Response 1 unauthorized ].

(** A request fails, the user logs out while the refresh is in flight, and
    the refresh response arrives afterwards. *)
Definition late_refresh : list event :=
  [ listDatasets; Response 0 unauthorized; Logout;
    RefreshResponse 0 (refreshed (js "fresh")) ].


Definition short_password : RegisterPage.form :=
  RegisterPage.mkForm (js "a@acme.com") (js "secret") (js "secret") (js "t-1") [] [] false.

Definition alice_id : Db.uuid := "0a1b2c3d-0001-4000-8000-00000000a11c".
Definition bob_id : Db.uuid := "0a1b2c3d-0002-4000-8000-0000000000b0".
Definition carol_id : Db.uuid := "0a1b2c3d-0003-4000-8000-00000000ca01".
Definition sales_id : Db.uuid := "0a1b2c3d-0004-4000-8000-00000000da7a".
Definition token_id : Db.uuid := "0a1b2c3d-0005-4000-8000-0000000070ce".

Definition alice_row : Db.users_row :=
  Db.mkUserRow alice_id Db.acme "a@acme.com" "hash-a" 0.
Definition bob_row : Db.users_row :=
  Db.mkUserRow bob_id Db.globex "b@globex.com" "hash-b" 0.
Definition bob_dataset : Db.datasets_row :=
  Db.mkDatasetRow sales_id Db.globex bob_id "sales.csv" "[]" 0 0.
Definition bob_token : Db.refresh_tokens_row :=
  Db.mkRefreshTokenRow token_id bob_id "h-1" 100 0.

Definition two_tenants : Db.database :=
  Db.seed ++ [ Db.RUser alice_row; Db.RUser bob_row; Db.RDataset bob_dataset;
               Db.RRefreshToken bob_token ].

Definition alice_context : Db.TenantContext := Db.mkContext Db.acme alice_id.

(** The same context on a connection of the tables' owner. *)
Definition alice_as_owner : Db.session := Db.install_as Db.Bypassing alice_context.

(** A connection of a restricted role whose tenant setting holds the empty
    text, for statements that evaluate the cast only for the rows their
    condition selects. *)
Definition stale_setting : Db.session :=
  Db.mkSession Db.Restricted (Db.Malformed false) Db.Unset.

(** A store holding one active refresh token, under the identity hash. *)
Definition one_token : Rotator.store :=
  [ Rotator.mkRecord 0 "u-alice" "raw-1" 1000 0 Rotator.ACTIVE 0 ].

End Examples.

(* ===================================================================== *)
(** * Properties stated by the specification *)
(* ===================================================================== *)

Module Spec.
Import Client.

(** Single-flight refresh: at most one refresh exchange is outstanding. *)
Definition single_flight (s : client) : Prop := outstanding_refreshes s <= 1.

(** A cleared session stays cleared. *)
Definition session_cleared (s : client) : Prop := accessToken s = None.

(** A storage operation that ends in an error. *)
Definition fatal {A} (x : Db.result A) : Prop := exists e, x = Db.Err e.

Definition wire_id (w : wire) : nat :=
  match w with ApiRequest i _ => i | RefreshCall i => i end.

(** What the interceptor keeps true of request [id], given where it is
    suspended ([p]), the next free id and the wire log: how often it went
    out and how many refresh calls it caused. *)
Definition inv_at (p : option (phase * config)) (nid : nat) (log : list wire) (id : nat)
  : Prop :=
  let ns := count_wire (is_send_of id) log in
  let nr := count_wire (is_refresh_of id) log in
  match p with
  | Some (AwaitingServer, c) =>
      if _retry c
      then ns = 2 /\ nr = 1 /\ isAuthEndpoint c = false
      else ns = 1 /\ nr = 0
  | Some (AwaitingRefresh, c) =>
      _retry c = true /\ ns = 1 /\ nr = 1 /\ isAuthEndpoint c = false
  | None =>
      ns <= 2 /\ nr <= 1 /\ (ns = 2 -> nr = 1) /\ (nid <= id -> ns = 0 /\ nr = 0)
  end /\
  (nid <= id -> p = None) /\
  (forall c, In (ApiRequest id c) log -> 1 <= nr -> isAuthEndpoint c = false) /\
  (forall c ph c', In (ApiRequest id c) log -> p = Some (ph, c') -> url c = url c').

Definition request_inv (s : client) (id : nat) : Prop :=
  inv_at (pending s !! id) (next_id s) (wire_log s) id.

End Spec.

(* ===================================================================== *)
(** * Kinds of events and of waiting requests *)
(* ===================================================================== *)

Module Traffic.
Import Client.

(** Events raised by the auth context. *)
Definition is_auth_event (e : event) : bool :=
  match e with Login _ _ | Logout => true | _ => false end.

(** Plain traffic: a request goes out, or its answer comes back. *)
Definition is_plain (e : event) : bool :=
  match e with Call _ _ _ | Response _ _ => true | _ => false end.

(** A request that is on the network for the first time. *)
Definition first_attempt (kv : nat * (phase * config)) : Prop :=
  (snd kv).1 = AwaitingServer /\ _retry (snd kv).2 = false.

Global Instance first_attempt_dec kv : Decision (first_attempt kv).
Proof. unfold first_attempt. apply _. Defined.

Definition first_attempts (s : client) : nat :=
  size (filter first_attempt (pending s)).

(** Refresh calls and first attempts still out are covered by the ids
    handed out so far. *)
Definition bounded (s : client) : Prop :=
  refresh_calls s + first_attempts s <= next_id s.

Definition is_call (e : event) : bool :=
  match e with Call _ _ _ => true | _ => false end.

(** Number of requests the pages make in a run. *)
Definition calls (tr : list event) : nat := length (List.filter is_call tr).

(** The config [api.get/post/delete] builds before the interceptors run. *)
Definition plain_config (m : method) (u : jsstring) (d : payload) : config :=
  mkConfig (Some u) m d None false.

End Traffic.

(* ===================================================================== *)
(** * More string operations *)
(* ===================================================================== *)

Module JSMore.

(** [s.endsWith(suffix)] *)
Definition endsWith (s suffix : jsstring) : bool :=
  (length suffix <=? length s) &&
  jsstring_eqb (skipn (length s - length suffix) s) suffix.

(** [!!s] for a string: only the empty string is falsy. *)
Definition nonempty (s : jsstring) : bool :=
  match s with [] => false | _ :: _ => true end.

End JSMore.

(* ===================================================================== *)
(** * The auth context ([AuthProvider]) and the pages' auth guard *)
(* ===================================================================== *)

Module AuthContext.
Import Client.

(** [isAuthenticated: !!user] *)
Definition isAuthenticated (s : client) : bool :=
  match user s with Some _ => true | None => false end.

(** [initAuth], run on mount, up to its [await]. *)
Definition initAuth (s : client) : client := step refreshToken s.

(** [initAuth] against a server that answers its request with [r], no
    other event in between: the call, the answer, and what follows the
    [await] once the promise has settled. *)
Definition silent_reauth (r : reply) (s : client) : client :=
  let id := next_id s in
  let s2 := step (Response id r) (initAuth s) in
  match settled s2 !! id with
  | Some o => initAuth_resume o s2
  | None => s2
  end.

(** The effect of the dashboard and the dataset page:
    [if (!isLoading && !isAuthenticated) router.push('/login')]. *)
Definition redirect_if_unauthenticated (s : client) : client :=
  if negb (authLoading s) && negb (isAuthenticated s)
  then set_pathname (Some (js "/login")) s
  else s.

End AuthContext.

(* ===================================================================== *)
(** * The login page *)
(* ===================================================================== *)

Module LoginPage.
Import Client.

Record form := mkForm {
  email : jsstring;
  password : jsstring;
  error : jsstring;
  isLoading : bool
}.

Definition setError (e : jsstring) (f : form) : form :=
  {| email := email f; password := password f; error := e; isLoading := isLoading f |}.

Definition setIsLoading (b : bool) (f : form) : form :=
  {| email := email f; password := password f; error := error f; isLoading := b |}.

(** [handleSubmit] up to its [await]. *)
Definition handleSubmit (f : form) (c : client) : form * client :=
  (setIsLoading true (setError [] f),
   step (login [("email"%string, email f); ("password"%string, password f)]) c).

(** [handleSubmit] after the [await]: the [catch] runs for a rejected call
    and for the TypeError of destructuring a [null] body. The result is
    [None] where [setError] receives a value that is no string, which the
    string cell [error] of [form] does not hold. *)
Definition handleSubmit_catch (e : failure) (f : form) (c : client) : option (form * client) :=
  match RegisterPage.caught_message e (js "Login failed. Please try again.") with
  | Some msg => Some (setIsLoading false (setError msg f), c)
  | None => None
  end.

Definition handleSubmit_resume (o : outcome) (f : form) (c : client) : option (form * client) :=
  match o with
  | Resolved resp =>
      if is_null (rdata resp) then handleSubmit_catch TypeError f c
      else
        Some (setIsLoading false f,
              set_pathname (Some (js "/dashboard"))
                (step (Login (access_token_of (rdata resp)) (user_of (rdata resp))) c))
  | Rejected e => handleSubmit_catch e f c
  end.

End LoginPage.

(* ===================================================================== *)
(** * The dashboard page *)
(* ===================================================================== *)

Module Dashboard.
Import Client JSMore.

Record Dataset := mkDataset {
  id : jsstring;
  name : jsstring;
  columns : list (jsstring * jsstring);   (* {name, type} *)
  row_count : Z;
  created_at : jsstring
}.

(** A file chosen in the file input: its name and its size in bytes. *)
Record File := mkFile { file_name : jsstring; file_size : N }.

(** The [useState] cells of the page and the value of the file input. *)
Record page := mkPage {
  datasets : list Dataset;
  isLoadingData : bool;
  isUploading : bool;
  error : jsstring;
  uploadError : jsstring;
  fileInput : jsstring
}.



Definition setIsUploading (b : bool) (d : page) : page :=
  {| datasets := datasets d; isLoadingData := isLoadingData d; isUploading := b;
     error := error d; uploadError := uploadError d; fileInput := fileInput d |}.

Definition setError (e : jsstring) (d : page) : page :=
  {| datasets := datasets d; isLoadingData := isLoadingData d; isUploading := isUploading d;
     error := e; uploadError := uploadError d; fileInput := fileInput d |}.

Definition setUploadError (e : jsstring) (d : page) : page :=
  {| datasets := datasets d; isLoadingData := isLoadingData d; isUploading := isUploading d;
     error := error d; uploadError := e; fileInput := fileInput d |}.


(** [uploadDataset(file)]: POST /datasets with the file as multipart form
    data; of the body only the file's name is kept here, and the
    Content-Type header, which the interceptors do not touch, is not part
    of [config]. *)
Definition uploadDataset (f : File) : event :=
  Call POST (js "/datasets") [("file"%string, file_name f)].

(** [const maxSize = 10 * 1024 * 1024] *)
Definition maxSize : N := 10 * 1024 * 1024.



Section FileSelect.

(** [(file.size / 1024 / 1024).toFixed(2)]: the size in megabytes printed
    with two decimals, a floating-point rendering that is left open. *)
Variable megabytes : N -> jsstring.

(** [handleFileSelect] up to its first [await]; [None] when no file was
    chosen ([e.target.files?.[0]] is undefined). *)
Definition handleFileSelect (file : option File) (d : page) (c : client) : page * client :=
  match file with
  | None => (d, c)
  | Some f =>
      if (maxSize <? file_size f)%N then
        (setUploadError
           (js "File size (" ++ megabytes (file_size f) ++
            js "MB) exceeds maximum allowed size of 10MB") d, c)
      else if negb (endsWith (file_name f) (js ".csv")) then
        (setUploadError (js "Please select a CSV file") d, c)
      else
        (setUploadError [] (setIsUploading true d), step (uploadDataset f) c)
  end.

End FileSelect.



(** [handleLogout] up to its [await], and after it: errors of the logout
    call are ignored. *)
Definition handleLogout (c : client) : client := step logout c.

Definition handleLogout_resume (o : outcome) (c : client) : client :=
  set_pathname (Some (js "/login")) (step Logout c).

(** [handleLogout] against a server that answers the logout call with
    [r], no other event in between. *)
Definition logout_flow (r : reply) (c : client) : client :=
  let id := next_id c in
  let c2 := step (Response id r) (handleLogout c) in
  match settled c2 !! id with
  | Some o => handleLogout_resume o c2
  | None => c2
  end.

(** [handleDatasetClick] *)
Definition handleDatasetClick (i : jsstring) (c : client) : client :=
  set_pathname (Some (js "/datasets/" ++ i)) c.

End Dashboard.

(* ===================================================================== *)
(** * The dataset page *)
(* ===================================================================== *)

Module DatasetView.
Import Client JSMore.

(** [interface ColumnInfo]; at run time [type] is whatever string the
    server sent. *)
Record ColumnInfo := mkColumn { col_name : jsstring; col_type : jsstring }.

Record Dataset := mkDataset {
  id : jsstring;
  name : jsstring;
  columns : list ColumnInfo;
  row_count : Z;
  created_at : jsstring;
  rows : list (list (jsstring * jsstring))
}.

(** The [useState] cells of the page that loading and aggregation write,
    and [router.query.id]. The table state and the aggregation results,
    which hold floating-point numbers, are left out. *)
Record view := mkView {
  query_id : option jsstring;
  dataset : option Dataset;
  isLoading : bool;
  error : jsstring;
  groupBy : jsstring;
  selectedMetric : jsstring;
  isAggregating : bool;
  showAggregation : bool
}.

Definition initial (i : option jsstring) : view :=
  mkView i None true [] [] [] false false.

Definition setDataset (x : option Dataset) (v : view) : view :=
  {| query_id := query_id v; dataset := x; isLoading := isLoading v; error := error v;
     groupBy := groupBy v; selectedMetric := selectedMetric v;
     isAggregating := isAggregating v; showAggregation := showAggregation v |}.

Definition setIsLoading (b : bool) (v : view) : view :=
  {| query_id := query_id v; dataset := dataset v; isLoading := b; error := error v;
     groupBy := groupBy v; selectedMetric := selectedMetric v;
     isAggregating := isAggregating v; showAggregation := showAggregation v |}.

Definition setError (e : jsstring) (v : view) : view :=
  {| query_id := query_id v; dataset := dataset v; isLoading := isLoading v; error := e;
     groupBy := groupBy v; selectedMetric := selectedMetric v;
     isAggregating := isAggregating v; showAggregation := showAggregation v |}.

Definition setGroupBy (g : jsstring) (v : view) : view :=
  {| query_id := query_id v; dataset := dataset v; isLoading := isLoading v; error := error v;
     groupBy := g; selectedMetric := selectedMetric v;
     isAggregating := isAggregating v; showAggregation := showAggregation v |}.

Definition setSelectedMetric (m : jsstring) (v : view) : view :=
  {| query_id := query_id v; dataset := dataset v; isLoading := isLoading v; error := error v;
     groupBy := groupBy v; selectedMetric := m;
     isAggregating := isAggregating v; showAggregation := showAggregation v |}.

Definition setIsAggregating (b : bool) (v : view) : view :=
  {| query_id := query_id v; dataset := dataset v; isLoading := isLoading v; error := error v;
     groupBy := groupBy v; selectedMetric := selectedMetric v;
     isAggregating := b; showAggregation := showAggregation v |}.

(** [columns.filter(c => c.type === t)] *)
Definition columns_of_type (t : jsstring) (cols : list ColumnInfo) : list ColumnInfo :=
  List.filter (fun c => jsstring_eqb (col_type c) t) cols.

(** [aggregateDataset(id, {group_by, metrics: [metric]})] *)
Definition aggregateDataset (i g m : jsstring) : event :=
  Call POST (js "/datasets/" ++ i ++ js "/aggregate")
       [("group_by"%string, g); ("metrics[0]"%string, m)].

(** [fetchDataset] after its [await]: the body of a resolved request is
    the dataset. *)
Definition fetchDataset_resume (res : Dataset + failure) (v : view) : view :=
  setIsLoading false
    match res with
    | inl ds =>
        let v1 := setDataset (Some ds) v in
        let v2 := match columns_of_type (js "categorical") (columns ds) with
                  | c :: _ => setGroupBy (col_name c) v1
                  | [] => v1
                  end in
        match columns_of_type (js "continuous") (columns ds) with
        | c :: _ => setSelectedMetric (col_name c) v2
        | [] => v2
        end
    | inr e => setError (RegisterPage.detail_or e (js "Failed to load dataset")) v
    end.

(** [fetchAggregation] up to its [await]. *)
Definition fetchAggregation (v : view) (c : client) : view * client :=
  match query_id v with
  | Some i =>
      if nonempty (groupBy v) && nonempty (selectedMetric v) && nonempty i then
        (setIsAggregating true v, step (aggregateDataset i (groupBy v) (selectedMetric v)) c)
      else (v, c)
  | None => (v, c)
  end.

End DatasetView.

(* ===================================================================== *)
(** * Keys, unique columns and foreign keys ([db/init.sql]) *)
(* ===================================================================== *)

Module Schema.
Import Db.

(** [id UUID PRIMARY KEY] of every table. *)
Definition id_of (r : row) : uuid :=
  match r with
  | RTenant t => t_id t
  | RUser u => u_id u
  | RRefreshToken t => rt_id t
  | RDataset d => d_id d
  | RDatasetRow d => dr_id d
  end.

(** The [UNIQUE] column of a table that has one: tenants.name,
    users.email, refresh_tokens.token_hash. *)
Definition unique_value (r : row) : option string :=
  match r with
  | RTenant t => Some (t_name t)
  | RUser u => Some (u_email u)
  | RRefreshToken t => Some (rt_token_hash t)
  | RDataset _ | RDatasetRow _ => None
  end.

(** The [REFERENCES] clauses of a row: the table and the id each of its
    foreign keys points to. *)
Definition references (r : row) : list (table * uuid) :=
  match r with
  | RTenant _ => []
  | RUser u => [(tenants, u_tenant_id u)]
  | RRefreshToken t => [(users, rt_user_id t)]
  | RDataset d => [(tenants, d_tenant_id d); (users, d_user_id d)]
  | RDatasetRow d => [(datasets, dr_dataset_id d); (tenants, dr_tenant_id d)]
  end.

(** Ids and unique values present in a table. *)
Definition keys (t : table) (db : list row) : list uuid :=
  map id_of (List.filter (in_table t) db).

Definition unique_values (t : table) (db : list row) : list string :=
  omap unique_value (List.filter (in_table t) db).

Definition has_row (t : table) (i : uuid) (db : list row) : bool :=
  existsb (String.eqb i) (keys t db).

Definition unique_taken (r : row) (db : list row) : bool :=
  match unique_value r with
  | Some v => existsb (String.eqb v) (unique_values (table_of r) db)
  | None => false
  end.

Definition references_ok (db : list row) (r : row) : bool :=
  forallb (fun p => has_row p.1 p.2 db) (references r).

(** A database that satisfies the constraints of init.sql. *)
Definition consistent (db : list row) : Prop :=
  (forall t, NoDup (keys t db)) /\
  (forall t, NoDup (unique_values t db)) /\
  (forall r, In r db -> references_ok db r = true).

Inductive violation :=
  | policy (e : error)        (* raised by row security *)
  | unique_violation          (* a primary key or UNIQUE column is taken *)
  | foreign_key_violation.    (* a referenced row does not exist *)

(** [INSERT] with the constraints: the policy check comes first, then the
    unique indexes, then the foreign keys. Keys and references are looked
    up in the whole table, not through the policy. *)
Definition insert_checked (r : row) (s : session) (db : database) : violation + database :=
  match insert_policy r s db with
  | Err e => inl (policy e)
  | Ok db' =>
      if has_row (table_of r) (id_of r) db || unique_taken r db then inl unique_violation
      else if negb (references_ok db r) then inl foreign_key_violation
      else inr db'
  end.

Section Cascade.

(** The rows a DELETE removes directly, and the database it runs on. *)
Variable victim : row -> bool.
Variable db : list row.

(** [ON DELETE CASCADE], followed along the foreign keys: a tenant goes
    when it is deleted directly; a user goes with its tenant; a dataset
    with its tenant or its user; a refresh token with its user; a dataset
    row with its dataset or its tenant. *)
Definition tenant_dead (i : uuid) : bool :=
  existsb (fun r => match r with
                    | RTenant t => String.eqb (t_id t) i && victim r
                    | _ => false
                    end) db.

Definition user_dead (i : uuid) : bool :=
  existsb (fun r => match r with
                    | RUser u =>
                        String.eqb (u_id u) i && (victim r || tenant_dead (u_tenant_id u))
                    | _ => false
                    end) db.

Definition dataset_dead (i : uuid) : bool :=
  existsb (fun r => match r with
                    | RDataset d =>
                        String.eqb (d_id d) i &&
                        (victim r || tenant_dead (d_tenant_id d) || user_dead (d_user_id d))
                    | _ => false
                    end) db.

Definition dead (r : row) : bool :=
  victim r ||
  match r with
  | RTenant _ => false
  | RUser u => tenant_dead (u_tenant_id u)
  | RRefreshToken t => user_dead (rt_user_id t)
  | RDataset d => tenant_dead (d_tenant_id d) || user_dead (d_user_id d)
  | RDatasetRow d => dataset_dead (dr_dataset_id d) || tenant_dead (dr_tenant_id d)
  end.

(** The row a foreign key points to is deleted. *)
Definition reference_dead (p : table * uuid) : bool :=
  match p.1 with
  | tenants => tenant_dead p.2
  | users => user_dead p.2
  | datasets => dataset_dead p.2
  | refresh_tokens | dataset_rows => false
  end.

Definition cascade : list row := List.filter (fun r => negb (dead r)) db.

End Cascade.

(** The rows of [t] a DELETE under session [s] removes directly: those
    that pass the policy and satisfy the condition. *)
Definition targets (t : table) (cond : row -> bool) (s : session) (r : row) : bool :=
  in_table t r && cond r &&
  match passes s r with Ok true => true | _ => false end.

(** [DELETE FROM t WHERE cond] with its cascades. The statement fails
    where its first step fails; the cascaded deletions are not checked
    against the policies. *)
Definition delete_cascading (t : table) (cond : row -> bool) (s : session) (db : database)
  : result database :=
  match delete_targets t cond s db with
  | Err e => Err e
  | Ok _ => Ok (cascade (targets t cond s) db)
  end.

End Schema.

(* ===================================================================== *)
(** * Theorems: the registration page *)
(* ===================================================================== *)

Import Client.

Lemma jsstring_eqb_eq (a b : jsstring) : jsstring_eqb a b = true <-> a = b.
Proof. unfold jsstring_eqb. apply bool_decide_eq_true. Qed.

(** When the form is valid, [handleSubmit] does send the request. *)
Lemma handleSubmit_sends (f : RegisterPage.form) (c : client) :
  RegisterPage.password f = RegisterPage.confirmPassword f ->
  8 <= length (RegisterPage.password f) ->
  wire_log (RegisterPage.handleSubmit f c).2 =
    ApiRequest (next_id c)
      (request_interceptor (accessToken c)
         (mkConfig (Some (js "/auth/register")) POST
            [("email"%string, RegisterPage.email f); ("password"%string, RegisterPage.password f);
             ("tenant_id"%string, RegisterPage.tenantId f)] None false))
    :: wire_log c.
Proof.
  intros Heq Hlen. unfold RegisterPage.handleSubmit. cbn [RegisterPage.password RegisterPage.confirmPassword RegisterPage.setError].
  destruct (jsstring_eqb _ _) eqn:E.
  - cbn [negb]. destruct (Nat.ltb_spec (length (RegisterPage.password f)) 8); [lia|]. reflexivity.
  - exfalso. apply jsstring_eqb_eq in Heq. congruence.
Qed.

(** C10. A submission whose password differs from the confirmation or is
    shorter than 8 code units issues no network request: the handler only
    stores a non-empty error message in the form and returns; the client
    state (token, user, requests in flight, wire log) and every other form
    field are unchanged. *)
Theorem handleSubmit_rejects_invalid (f : RegisterPage.form) (c : client) :
  RegisterPage.password f <> RegisterPage.confirmPassword f \/ length (RegisterPage.password f) < 8 ->
  exists msg, msg <> [] /\
    RegisterPage.handleSubmit f c = (RegisterPage.setError msg f, c) /\
    wire_log (RegisterPage.handleSubmit f c).2 = wire_log c.
Proof.
  intros H. unfold RegisterPage.handleSubmit.
  cbn [RegisterPage.password RegisterPage.confirmPassword RegisterPage.setError].
  destruct (jsstring_eqb _ _) eqn:E; cbn [negb].
  - apply jsstring_eqb_eq in E. destruct H as [H|H]; [congruence|].
    destruct (Nat.ltb_spec (length (RegisterPage.password f)) 8); [|lia].
    eexists; split; [|split; reflexivity]. discriminate.
  - eexists; split; [|split; reflexivity]. discriminate.
Qed.

Lemma handleSubmit_rejects_invalid_witness :
  exists msg, msg <> [] /\
    RegisterPage.handleSubmit Examples.short_password Examples.logged_in
      = (RegisterPage.setError msg Examples.short_password, Examples.logged_in) /\
    wire_log (RegisterPage.handleSubmit Examples.short_password Examples.logged_in).2
      = wire_log Examples.logged_in.
Proof.
  apply (handleSubmit_rejects_invalid Examples.short_password Examples.logged_in).
  right. vm_compute. lia.
Defined.

(* ===================================================================== *)
(** * Theorems: row-level security *)
(* ===================================================================== *)

Import Db.

Lemma passes_scope (s : session) (r : row) :
  session_role s = Restricted ->
  row_security (table_of r) = true ->
  passes s r = Ok true -> scope_matches s r.
Proof.
  intros Hro Hrls. unfold passes. rewrite Hro. destruct s as [ro ct cu].
  destruct r as [t|u|t|d|d]; cbn in *; try discriminate;
    [destruct ct as [|b|v]|destruct cu as [|b|v]|destruct ct as [|b|v]|destruct ct as [|b|v]];
    cbn; try discriminate;
    match goal with |- context [String.eqb ?a ?b] => destruct (String.eqb_spec a b) end;
    cbn; try discriminate; intros _; congruence.
Qed.

Lemma scope_passes (s : session) (r : row) :
  scope_matches s r -> passes s r = Ok true.
Proof.
  unfold passes. destruct s as [[] ct cu]; [reflexivity|].
  destruct r as [t|u|t|d|d]; cbn; intros H; try reflexivity; subst; cbn;
    rewrite String.eqb_refl; reflexivity.
Qed.

(** Rows of a table without row security pass under every session. *)
Lemma passes_unprotected (s : session) (r : row) :
  row_security (table_of r) = false -> passes s r = Ok true.
Proof.
  unfold passes. destruct (session_role s); [reflexivity|].
  destruct r; cbn; try discriminate; reflexivity.
Qed.

(** For a restricted role, passing is matching the scope. *)
Lemma passes_iff_scope (s : session) (r : row) :
  passes s r = Ok true <->
  match session_role s with Restricted => scope_matches s r | Bypassing => True end.
Proof.
  destruct (session_role s) eqn:Hro.
  - unfold passes. rewrite Hro. tauto.
  - split; [|apply scope_passes].
    destruct (row_security (table_of r)) eqn:E; [now apply passes_scope|].
    destruct r; cbn in *; try discriminate. auto.
Qed.

(** With a context installed no policy raises. *)
Lemma passes_installed (ctx : TenantContext) (s : session) (r : row) :
  installed ctx s -> passes s r = Ok true \/ passes s r = Ok false.
Proof.
  intros [Ht Hu]. unfold passes. destruct (session_role s); [auto|].
  destruct r as [x|x|x|x|x]; cbn; rewrite ?Ht, ?Hu; cbn; auto;
    match goal with |- context [String.eqb ?a ?b] => destruct (String.eqb a b) end; auto.
Qed.

Lemma installed_no_early_raise (ctx : TenantContext) (s : session) (t : table) :
  installed ctx s -> raises_eagerly t s = false.
Proof.
  intros [Ht Hu]. unfold raises_eagerly, policy_setting.
  destruct (session_role s); [reflexivity|]. destruct t; rewrite ?Ht, ?Hu; reflexivity.
Qed.

Lemma in_table_true t r : in_table t r = true <-> table_of r = t.
Proof. unfold in_table. apply bool_decide_eq_true. Qed.

Lemma select_rows_sound t cond s db rows r :
  select_rows t cond s db = Ok rows -> In r rows ->
  In r db /\ table_of r = t /\ passes s r = Ok true /\ cond r = true.
Proof.
  revert rows. induction db as [|x db IH]; intros rows; cbn [select_rows].
  - intros [= <-] [].
  - destruct (in_table t x && cond x) eqn:Htc.
    + apply andb_true_iff in Htc as [Ht Hc]. apply in_table_true in Ht.
      destruct (passes s x) as [p|e] eqn:Hp; cbn; [|discriminate].
      destruct (select_rows t cond s db) as [rest|e] eqn:Hs; cbn; [|discriminate].
      intros [= <-]. destruct p.
      * intros [<-|Hin]; [repeat split; auto; now left|].
        destruct (IH _ eq_refl Hin) as (?&?&?&?). repeat split; auto; now right.
      * intros Hin. destruct (IH _ eq_refl Hin) as (?&?&?&?). repeat split; auto; now right.
    + intros Hs Hin. destruct (IH _ Hs Hin) as (?&?&?&?). repeat split; auto; now right.
Qed.

Lemma select_sound t cond s db rows r :
  select t cond s db = Ok rows -> In r rows ->
  In r db /\ table_of r = t /\ passes s r = Ok true /\ cond r = true.
Proof.
  unfold select. destruct (raises_eagerly t s); [discriminate|].
  apply select_rows_sound.
Qed.

(** Where no policy raises, a SELECT returns exactly the rows of the table
    that satisfy the condition and pass. *)
Lemma select_rows_spec t cond s (db : list row) :
  (forall r, In r db -> passes s r = Ok true \/ passes s r = Ok false) ->
  exists rows,
    select_rows t cond s db = Ok rows /\
    forall r, In r rows <->
              In r db /\ table_of r = t /\ cond r = true /\ passes s r = Ok true.
Proof.
  induction db as [|x db IH]; intros Hp.
  - exists []. split; [reflexivity|]. intros r. split; [intros []|intros [[] _]].
  - destruct IH as (rows & Hs & Hrows); [intros r Hr; apply Hp; now right|].
    cbn [select_rows]. destruct (in_table t x && cond x) eqn:Htc.
    + apply andb_true_iff in Htc as [Ht Hc]. apply in_table_true in Ht.
      destruct (Hp x (or_introl eq_refl)) as [Hx|Hx]; rewrite Hx, Hs; cbn.
      * exists (x :: rows). split; [reflexivity|]. intros r. cbn. rewrite Hrows. split.
        -- intros [<-|(?&?&?&?)]; tauto.
        -- intros ([<-|?]&?&?&?); tauto.
      * exists rows. split; [reflexivity|]. intros r. rewrite Hrows. cbn. split.
        -- intros (?&?&?&?); tauto.
        -- intros ([<-|?]&?&?&?); [congruence|tauto].
    + exists rows. split; [exact Hs|]. intros r. rewrite Hrows. cbn. split.
      * intros (?&?&?&?); tauto.
      * intros ([<-|?]&Ht&Hc&?); [|tauto].
        apply in_table_true in Ht. rewrite Ht, Hc in Htc. discriminate.
Qed.

(** The first step of a DELETE removes the rows that [Schema.targets]
    names. *)
Lemma delete_rows_targets t cond s (db db' : list row) :
  delete_rows t cond s db = Ok db' ->
  db' = List.filter (fun r => negb (Schema.targets t cond s r)) db.
Proof.
  revert db'. induction db as [|x db IH]; intros db'; cbn [delete_rows List.filter].
  - now intros [= <-].
  - unfold Schema.targets at 1. destruct (in_table t x && cond x).
    + destruct (passes s x) as [p|e]; cbn; [|discriminate].
      destruct (delete_rows t cond s db) as [rest|e]; cbn; [|discriminate].
      intros [= <-]. rewrite (IH _ eq_refl). now destruct p.
    + destruct (delete_rows t cond s db) as [rest|e]; cbn; [|discriminate].
      intros [= <-]. now rewrite (IH _ eq_refl).
Qed.

(** An update pairs every old row with itself or with its image under
    [set]; only rows that pass the policy are replaced, and only by rows
    that pass it. *)
Lemma update_rows_sound t cond set s db db' :
  update_rows t cond set s db = Ok db' ->
  Forall2 (fun r r' => r' = r \/
             (r' = set r /\ table_of r = t /\ passes s r = Ok true /\
              passes s r' = Ok true)) db db'.
Proof.
  revert db'. induction db as [|x db IH]; intros db'; cbn [update_rows].
  - intros [= <-]. constructor.
  - destruct (in_table t x && cond x) eqn:Htc.
    + apply andb_true_iff in Htc as [Ht Hc]. apply in_table_true in Ht.
      destruct (passes s x) as [p|e] eqn:Hp; cbn; [|discriminate].
      destruct p.
      * destruct (passes s (set x)) as [c|e] eqn:Hn; cbn; [|discriminate].
        destruct c; [|discriminate].
        destruct (update_rows t cond set s db) as [rest|e] eqn:Hs; cbn; [|discriminate].
        intros [= <-]. constructor; [|auto]. right. auto.
      * destruct (update_rows t cond set s db) as [rest|e] eqn:Hs; cbn; [|discriminate].
        intros [= <-]. constructor; auto.
    + destruct (update_rows t cond set s db) as [rest|e] eqn:Hs; cbn; [|discriminate].
      intros [= <-]. constructor; auto.
Qed.

Lemma update_sound t cond set s db db' :
  update t cond set s db = Ok db' ->
  Forall2 (fun r r' => r' = r \/
             (r' = set r /\ table_of r = t /\ passes s r = Ok true /\
              passes s r' = Ok true)) db db'.
Proof.
  unfold update. destruct (raises_eagerly t s); [discriminate|].
  apply update_rows_sound.
Qed.

(** Rows an update brings in pass the policy, and so do rows it takes
    away. *)
Lemma update_new_passes t cond set s (db db' : list row) r :
  update t cond set s db = Ok db' -> In r db' -> ~ In r db -> passes s r = Ok true.
Proof.
  intros Hu Hin Hnot. apply update_sound in Hu.
  induction Hu as [|x y l l' Hxy Hu IH]; [destruct Hin|].
  destruct Hin as [<-|Hin].
  - destruct Hxy as [->|(_&_&_&Hp)]; [exfalso; apply Hnot; now left|]. exact Hp.
  - apply IH; [assumption|]. intros H; apply Hnot; now right.
Qed.

Lemma update_old_passes t cond set s (db db' : list row) r :
  update t cond set s db = Ok db' -> In r db -> ~ In r db' -> passes s r = Ok true.
Proof.
  intros Hu Hin Hnot. apply update_sound in Hu.
  induction Hu as [|x y l l' Hxy Hu IH]; [destruct Hin|].
  destruct Hin as [<-|Hin].
  - destruct Hxy as [->|(_&_&Hp&_)]; [exfalso; apply Hnot; now left|]. exact Hp.
  - apply IH; [assumption|]. intros H; apply Hnot; now right.
Qed.

Lemma insert_sound r s db db' :
  insert_policy r s db = Ok db' -> passes s r = Ok true /\ db' = db ++ [r].
Proof.
  unfold insert_policy. destruct (passes s r) as [[]|e]; cbn; try discriminate.
  intros [= <-]. auto.
Qed.

(** Under a restricted role, a context resolved for a user of one tenant
    fails the policy of every row another tenant owns. *)
Lemma cross_tenant_fails (s : session) db uid ctx r t2 :
  session_role s = Restricted ->
  installed ctx s ->
  resolved_for db uid ctx ->
  owner_tenant db r = Some t2 -> t2 <> ctx_tenant_id ctx ->
  passes s r = Ok false.
Proof.
  intros Hro [Hct Hcu] [Hu Ht] Ho Hne. unfold passes. rewrite Hro.
  destruct r as [x|x|x|x|x]; cbn in *; try discriminate; rewrite ?Hct, ?Hcu; cbn;
    match goal with |- context [String.eqb ?a ?b] => destruct (String.eqb_spec a b) end;
    try reflexivity; exfalso; congruence.
Qed.

(** With the setting its policy reads unset, no row of a table passes
    under a restricted role. *)
Lemma unset_fails (s : session) (r : row) :
  session_role s = Restricted ->
  policy_setting (table_of r) s = Some Unset ->
  passes s r = Ok false.
Proof.
  intros Hro. unfold passes. rewrite Hro.
  destruct r; cbn; try discriminate; intros [= ->]; reflexivity.
Qed.

Lemma unset_no_early_raise (s : session) (t : table) :
  policy_setting t s = Some Unset -> raises_eagerly t s = false.
Proof. unfold raises_eagerly. intros ->. now destruct (session_role s). Qed.

Lemma select_unset t cond s (db : list row) :
  session_role s = Restricted -> policy_setting t s = Some Unset ->
  select t cond s db = Ok [].
Proof.
  intros Hro Hset. unfold select. rewrite (unset_no_early_raise s t Hset).
  induction db as [|x db IH]; cbn [select_rows]; [reflexivity|].
  destruct (in_table t x && cond x) eqn:Htc; [|assumption].
  apply andb_true_iff in Htc as [Ht _]. apply in_table_true in Ht.
  rewrite (unset_fails s x Hro) by (rewrite Ht; assumption). cbn. rewrite IH. reflexivity.
Qed.

Lemma delete_unset t cond s (db : list row) :
  session_role s = Restricted -> policy_setting t s = Some Unset ->
  delete_targets t cond s db = Ok db.
Proof.
  intros Hro Hset. unfold delete_targets. rewrite (unset_no_early_raise s t Hset).
  induction db as [|x db IH]; cbn [delete_rows]; [reflexivity|].
  destruct (in_table t x && cond x) eqn:Htc.
  - apply andb_true_iff in Htc as [Ht _]. apply in_table_true in Ht.
    rewrite (unset_fails s x Hro) by (rewrite Ht; assumption). cbn. rewrite IH. reflexivity.
  - rewrite IH. reflexivity.
Qed.

Lemma update_unset t cond set s (db : list row) :
  session_role s = Restricted -> policy_setting t s = Some Unset ->
  update t cond set s db = Ok db.
Proof.
  intros Hro Hset. unfold update. rewrite (unset_no_early_raise s t Hset).
  induction db as [|x db IH]; cbn [update_rows]; [reflexivity|].
  destruct (in_table t x && cond x) eqn:Htc.
  - apply andb_true_iff in Htc as [Ht _]. apply in_table_true in Ht.
    rewrite (unset_fails s x Hro) by (rewrite Ht; assumption). cbn. rewrite IH. reflexivity.
  - rewrite IH. reflexivity.
Qed.

(** With a text that is no uuid in the setting its policy reads, the
    policy raises on every row of a table under a restricted role. *)
Lemma malformed_fails (s : session) (r : row) (b : bool) :
  session_role s = Restricted ->
  policy_setting (table_of r) s = Some (Malformed b) ->
  passes s r = Err invalid_text_representation.
Proof.
  intros Hro. unfold passes. rewrite Hro.
  destruct r; cbn; try discriminate; intros [= ->]; reflexivity.
Qed.

(** A statement then fails when it evaluates the cast eagerly or its
    condition selects a stored row, and finds nothing otherwise. *)
Lemma malformed_statements (s : session) (t : table) (b : bool) (db : list row)
    (cond : row -> bool) (set : row -> row) :
  session_role s = Restricted ->
  policy_setting t s = Some (Malformed b) ->
  let hit := b || existsb (fun r => in_table t r && cond r) db in
  select t cond s db = (if hit then Err invalid_text_representation else Ok []) /\
  delete_targets t cond s db = (if hit then Err invalid_text_representation else Ok db) /\
  update t cond set s db = (if hit then Err invalid_text_representation else Ok db).
Proof.
  intros Hro Hset. cbv zeta. unfold select, delete_targets, update, raises_eagerly.
  rewrite Hro, Hset. destruct b; [repeat split|]. cbn [orb].
  induction db as [|x db (IH1 & IH2 & IH3)]; [repeat split|].
  cbn [select_rows delete_rows update_rows existsb].
  destruct (in_table t x && cond x) eqn:Htc.
  - apply andb_true_iff in Htc as [Ht _]. apply in_table_true in Ht.
    rewrite (malformed_fails s x false Hro) by (rewrite Ht; assumption). repeat split.
  - cbn [orb]. rewrite IH1, IH2, IH3.
    destruct (existsb (fun r => in_table t r && cond r) db); repeat split.
Qed.

Lemma select_tenants_all (s : session) (db : list row) :
  select tenants (fun _ => true) s db = Ok (filter (fun r => table_of r = tenants) db).
Proof.
  unfold select, raises_eagerly. cbn [policy_setting].
  replace (match session_role s with Bypassing | Restricted => false end) with false
    by now destruct (session_role s).
  induction db as [|x db IH]; cbn [select_rows]; [reflexivity|].
  rewrite IH, filter_cons, andb_true_r. unfold in_table.
  case_bool_decide as Ht.
  - rewrite passes_unprotected by (rewrite Ht; reflexivity). cbn.
    rewrite decide_True by assumption. reflexivity.
  - rewrite decide_False by assumption. reflexivity.
Qed.

Lemma directory_filter (db : list row) :
  directory (filter (fun r => table_of r = tenants) db) = directory db.
Proof.
  induction db as [|x db IH]; [reflexivity|].
  rewrite filter_cons. unfold directory in *.
  destruct x; cbn [table_of]; case_decide; try discriminate; try congruence;
    cbn; rewrite ?IH; reflexivity.
Qed.

(** C9. The tenants table has no row security: under every session, with
    or without a context and whatever its settings, reading the tenant
    directory succeeds and returns the {id, name} pair of every tenant in
    the table, so any two callers read the same list. On the registration
    page the list is requested without an access token. *)
Theorem tenant_directory_unscoped (db : database) (s1 s2 : session) :
  list_tenants s1 db = Ok (directory db) /\
  list_tenants s1 db = list_tenants s2 db /\
  (forall t, In (RTenant t) db -> In (t_id t, t_name t) (directory db)) /\
  list_tenants no_context seed =
    Ok [ (acme, "Acme Corporation"%string); (globex, "Globex Industries"%string);
         (initech, "Initech Solutions"%string) ] /\
  (forall path, wire_log (RegisterPage.fetchTenants (init path)) =
     [ ApiRequest 0 (mkConfig (Some (js "/auth/tenants")) GET [] None false) ]).
Proof.
  assert (H : forall s, list_tenants s db = Ok (directory db)).
  { intros s. unfold list_tenants. rewrite select_tenants_all. cbn.
    now rewrite directory_filter. }
  repeat split.
  - apply H.
  - now rewrite !H.
  - intros t Hin. unfold directory.
    apply list_elem_of_In, list_elem_of_omap. exists (RTenant t).
    split; [now apply list_elem_of_In | reflexivity].
Qed.

Lemma tenant_directory_unscoped_witness :
  list_tenants (install Examples.alice_context) Examples.two_tenants
    = list_tenants no_context Examples.two_tenants /\
  In (globex, "Globex Industries"%string) (directory Examples.two_tenants).
Proof.
  destruct (tenant_directory_unscoped Examples.two_tenants
              (install Examples.alice_context) no_context) as (_ & H2 & H3 & _).
  split; [exact H2|].
  apply (H3 (mkTenantRow globex "Globex Industries" 0)).
  right. left. reflexivity.
Defined.

(* ===================================================================== *)
(** * Theorems: the response interceptor *)
(* ===================================================================== *)

(** A 401 is never a 2xx. *)
Lemma should_refresh_not_ok (c : config) (r : reply) :
  should_refresh c r = true -> ok r = None.
Proof.
  unfold should_refresh, status_is, ok. destruct r as [resp|]; [|reflexivity].
  intros H. apply andb_true_iff in H as [H _]. apply andb_true_iff in H as [H _].
  apply Z.eqb_eq in H. rewrite H. reflexivity.
Qed.

(** The two ways the handler continues after its [await]: it replays the
    request, or its [catch] runs. *)
Lemma on_refresh_cases (id : nat) (c : config) (r : reply) (s : client) :
  (exists resp, ok r = Some resp /\ is_null (rdata resp) = false /\
     on_refresh id c r s =
       send id (with_Authorization (bearer (access_token_of (rdata resp))) c)
            (setAccessToken (access_token_of (rdata resp)) s)) \/
  (exists e, (ok r = None \/ exists resp, ok r = Some resp /\ is_null (rdata resp) = true) /\
     on_refresh id c r s =
       settle id (Rejected e) (redirect_to_login (setAccessToken None s))).
Proof.
  unfold on_refresh. destruct (ok r) as [resp|].
  - destruct (is_null (rdata resp)) eqn:Hn.
    + right. exists TypeError. split; [right; eauto|reflexivity].
    + left. exists resp. auto.
  - right. exists (RefreshError r). split; [left|]; reflexivity.
Qed.

Lemma awaiting_refresh_insert (m : gmap nat (phase * config)) id c c' :
  m !! id = Some (AwaitingServer, c) ->
  size (filter (fun kv => (snd kv).1 = AwaitingRefresh) (<[id := (AwaitingRefresh, c')]> m))
  = S (size (filter (fun kv => (snd kv).1 = AwaitingRefresh) m)).
Proof.
  intros Hm. rewrite map_filter_insert_True by reflexivity.
  apply map_size_insert_None. apply map_lookup_filter_None. right.
  intros x Hx. rewrite Hm in Hx. injection Hx as <-. discriminate.
Qed.

(** C1, as the specification states it, fails: after two requests have
    come back 401, two refresh exchanges are outstanding at once, one per
    request, and two refresh calls have gone out. *)
Lemma two_refreshes_outstanding :
  ~ Spec.single_flight (run Examples.two_failures Examples.logged_in) /\
  outstanding_refreshes (run Examples.two_failures Examples.logged_in) = 2 /\
  firstn 2 (wire_log (run Examples.two_failures Examples.logged_in))
    = [RefreshCall 1; RefreshCall 0].
Proof.
  assert (H : outstanding_refreshes (run Examples.two_failures Examples.logged_in) = 2)
    by (vm_compute; reflexivity).
  split; [|split; [exact H | vm_compute; reflexivity]].
  unfold Spec.single_flight. rewrite H. lia.
Qed.

(** C1 (amended). Every request whose failure passes the interceptor's
    guard (status 401, not flagged, not an auth endpoint) issues its own
    refresh call to /auth/refresh, whatever refresh exchanges are already
    outstanding: the number of outstanding exchanges and the number of
    refresh calls each grow by one, and the request waits for its own
    exchange. *)
Theorem refresh_per_failing_request (s : client) (id : nat) (c : config) (r : reply) :
  pending s !! id = Some (AwaitingServer, c) ->
  should_refresh c r = true ->
  let s' := step (Response id r) s in
  outstanding_refreshes s' = S (outstanding_refreshes s) /\
  refresh_calls s' = S (refresh_calls s) /\
  wire_log s' = RefreshCall id :: wire_log s /\
  pending s' !! id = Some (AwaitingRefresh, with_retry c).
Proof.
  intros Hp Hr. cbn. rewrite Hp, (should_refresh_not_ok _ _ Hr).
  unfold on_error. rewrite Hr.
  unfold outstanding_refreshes, refresh_calls. cbn.
  split; [now apply awaiting_refresh_insert with (c := c)|].
  split; [|split; [reflexivity|apply lookup_insert_eq]].
  reflexivity.
Qed.

Lemma refresh_per_failing_request_witness :
  let s := run [listDatasets; getDataset (js "42"); Response 0 Examples.unauthorized]
               Examples.logged_in in
  outstanding_refreshes s = 1 /\
  outstanding_refreshes (step (Response 1 Examples.unauthorized) s) = 2.
Proof.
  cbv zeta. split; [vm_compute; reflexivity|].
  refine (proj1 (refresh_per_failing_request _ 1 _ Examples.unauthorized _ _)).
  - vm_compute. reflexivity.
  - vm_compute. reflexivity.
Defined.

(** C4, as the specification states it, fails: the user logs out while the
    refresh of request 0 is in flight, which clears the token; the refresh
    response that arrives afterwards puts its access token into memory. *)
Lemma late_refresh_reinstalls_token :
  Spec.session_cleared (run (firstn 3 Examples.late_refresh) Examples.logged_in) /\
  ~ Spec.session_cleared (run Examples.late_refresh Examples.logged_in) /\
  accessToken (run Examples.late_refresh Examples.logged_in) = Some (js "fresh").
Proof.
  split; [vm_compute; reflexivity|].
  assert (H : accessToken (run Examples.late_refresh Examples.logged_in) = Some (js "fresh"))
    by (vm_compute; reflexivity).
  split; [|exact H]. unfold Spec.session_cleared. rewrite H. discriminate.
Qed.

(** C4 (amended). Logging out while a refresh exchange is in flight clears
    the in-memory access token and the user. A refresh response that
    arrives afterwards with a 2xx status and a body carrying an access
    token installs that token in memory and replays the request with it,
    while the user stays cleared; every other 2xx answer, and every answer
    that fails, leaves the token cleared, and a failed one puts nothing on
    the wire. *)
Theorem late_refresh_after_logout (s : client) (id : nat) (c : config) (r : reply) :
  pending s !! id = Some (AwaitingRefresh, c) ->
  let s1 := step Logout s in
  let s2 := step (RefreshResponse id r) s1 in
  accessToken s1 = None /\ user s1 = None /\ user s2 = None /\
  match ok r with
  | Some resp =>
      match access_token_of (rdata resp) with
      | Some t =>
          accessToken s2 = Some t /\
          wire_log s2 =
            ApiRequest id (request_interceptor (Some t)
                             (with_Authorization (bearer (Some t)) c)) :: wire_log s
      | None => accessToken s2 = None
      end
  | None => accessToken s2 = None /\ wire_log s2 = wire_log s
  end.
Proof.
  intros Hp. cbn. rewrite Hp. unfold on_refresh.
  assert (Hcatch : forall o,
    let s' := settle id o (redirect_to_login (setAccessToken None (setUser None (setAccessToken None s)))) in
    user s' = None /\ accessToken s' = None /\ wire_log s' = wire_log s).
  { intros o. unfold redirect_to_login. cbn. destruct (pathname s) as [p|]; cbn.
    - destruct (includes p (js "/login")); cbn; repeat split.
    - repeat split. }
  destruct (ok r) as [resp|].
  - destruct (rdata resp) eqn:Hb; cbn [is_null access_token_of];
      try (cbn; repeat split; fail).
    destruct (Hcatch (Rejected TypeError)) as (Hu & Ht & _).
    repeat split; assumption.
  - destruct (Hcatch (Rejected (RefreshError r))) as (Hu & Ht & Hw).
    repeat split; assumption.
Qed.

Lemma late_refresh_after_logout_witness :
  let s := run [listDatasets; Response 0 Examples.unauthorized] Examples.logged_in in
  accessToken (step Logout s) = None /\
  accessToken (step (RefreshResponse 0 (Examples.refreshed (js "fresh"))) (step Logout s))
    = Some (js "fresh").
Proof.
  cbv zeta.
  pose proof (late_refresh_after_logout
                (run [listDatasets; Response 0 Examples.unauthorized] Examples.logged_in)
                0 _ (Examples.refreshed (js "fresh")) eq_refl) as H.
  cbv zeta in H. destruct H as (H1 & _ & _ & H2).
  split; [exact H1 | exact (proj1 H2)].
Defined.

(** The silent refresh on mount: when it fails, token and user are
    cleared and loading ends. *)
Lemma initAuth_failure_clears (e : failure) (s : client) :
  accessToken (initAuth_resume (Rejected e) s) = None /\
  user (initAuth_resume (Rejected e) s) = None /\
  authLoading (initAuth_resume (Rejected e) s) = false.
Proof. repeat split. Qed.



(** ** Every request is retried at most once *)

Section RequestInvariant.
Import Spec.

Lemma sent_counted id c log :
  In (ApiRequest id c) log -> 1 <= count_wire (is_send_of id) log.
Proof.
  induction log as [|w log IH]; [intros []|].
  intros [->|Hin]; cbn.
  - rewrite Nat.eqb_refl. lia.
  - specialize (IH Hin). lia.
Qed.

Lemma isAuthEndpoint_url c c' : url c = url c' -> isAuthEndpoint c = isAuthEndpoint c'.
Proof. unfold isAuthEndpoint. now intros ->. Qed.

Lemma request_interceptor_url t c : url (request_interceptor t c) = url c.
Proof. unfold request_interceptor. now destruct (truthy t). Qed.

Lemma request_interceptor_retry t c : _retry (request_interceptor t c) = _retry c.
Proof. unfold request_interceptor. now destruct (truthy t). Qed.

Lemma count_other p id w log :
  wire_id w <> id ->
  (p = is_send_of id \/ p = is_refresh_of id) ->
  count_wire p (w :: log) = count_wire p log.
Proof.
  intros Hne [-> | ->]; destruct w as [i c|i]; cbn in *; try reflexivity;
    destruct (Nat.eqb_spec i id); try congruence; reflexivity.
Qed.

(** Traffic of other requests does not touch request [id]. *)
Lemma inv_at_frame p nid nid' log w id :
  wire_id w <> id -> nid <= nid' ->
  inv_at p nid log id -> inv_at p nid' (w :: log) id.
Proof.
  intros Hw Hn. unfold inv_at.
  rewrite !(count_other _ id w log Hw) by auto.
  intros (H1 & H2 & H3 & H4). repeat split.
  - destruct p as [[[] c]|]; try assumption.
    destruct H1 as (?&?&?&H). repeat split; try assumption; apply H; lia.
  - intros ?. apply H2. lia.
  - intros c [->|Hin]; [cbn in Hw; congruence|]. now apply H3.
  - intros c ph c' [->|Hin]; [cbn in Hw; congruence|]. now apply H4.
Qed.

Lemma inv_at_mono p nid nid' log id :
  nid <= nid' -> inv_at p nid log id -> inv_at p nid' log id.
Proof.
  intros Hn. unfold inv_at. intros (H1 & H2 & H3 & H4). repeat split; try assumption.
  - destruct p as [[[] c]|]; try assumption.
    destruct H1 as (?&?&?&H). repeat split; try assumption; apply H; lia.
  - intros ?. apply H2. lia.
Qed.

(** [api.get/post/delete]: a new request goes out once, unflagged. *)
Lemma inv_at_call nid log c :
  _retry c = false ->
  inv_at None nid log nid ->
  inv_at (Some (AwaitingServer, c)) (S nid) (ApiRequest nid c :: log) nid.
Proof.
  intros Hc. unfold inv_at. intros ((_ & _ & _ & H0) & _ & _ & _).
  destruct (H0 (le_n _)) as [Hs Hr]. cbn. rewrite Nat.eqb_refl, Hc, Hs, Hr.
  repeat split.
  - intros ?. lia.
  - intros c' _ ?. lia.
  - intros c1 ph c' [[= <-]|Hin] [= <- <-]; [reflexivity|].
    apply sent_counted in Hin. lia.
Qed.

(** The promise settles. *)
Lemma inv_at_settle ph c nid log id :
  inv_at (Some (ph, c)) nid log id -> inv_at None nid log id.
Proof.
  unfold inv_at. intros (H1 & H2 & H3 & H4).
  assert (Hlt : ~ nid <= id) by (intros H; specialize (H2 H); discriminate).
  destruct ph; [destruct (_retry c)|];
    repeat split; try (intros; lia); try assumption; try discriminate;
    intuition lia.
Qed.

(** The guard passes: one refresh call, and the request is flagged. *)
Lemma inv_at_refresh c nid log id :
  _retry c = false -> isAuthEndpoint c = false ->
  inv_at (Some (AwaitingServer, c)) nid log id ->
  inv_at (Some (AwaitingRefresh, with_retry c)) nid (RefreshCall id :: log) id.
Proof.
  intros Hr Ha. unfold inv_at. rewrite Hr. intros ((Hs & Hn) & H2 & H3 & H4).
  cbn. rewrite Nat.eqb_refl, Hs, Hn. repeat split.
  - assumption.
  - intros H. specialize (H2 H). discriminate.
  - intros c1 [?|Hin] _; [discriminate|].
    rewrite (isAuthEndpoint_url c1 c); [assumption|]. eapply H4; eauto.
  - intros c1 ph c' [?|Hin] [= <- <-]; [discriminate|]. cbn. eapply H4; eauto.
Qed.

(** The refresh succeeded: the flagged request goes out a second time. *)
Lemma inv_at_replay c c' nid log id :
  url c' = url c -> _retry c' = true ->
  inv_at (Some (AwaitingRefresh, c)) nid log id ->
  inv_at (Some (AwaitingServer, c')) nid (ApiRequest id c' :: log) id.
Proof.
  intros Hu Hr. unfold inv_at. rewrite Hr. intros ((_ & Hs & Hn & Ha) & H2 & H3 & H4).
  assert (Ha' : isAuthEndpoint c' = false)
    by (rewrite (isAuthEndpoint_url c' c); assumption).
  cbn. rewrite Nat.eqb_refl, Hs, Hn. repeat split.
  - assumption.
  - intros H. specialize (H2 H). discriminate.
  - intros c1 [[= <-]|Hin] _; [assumption|]. apply H3; [assumption|lia].
  - intros c1 ph c2 [[= <-]|Hin] [= <- <-]; [reflexivity|].
    rewrite Hu. eapply H4; eauto.
Qed.

Lemma init_inv path id : request_inv (init path) id.
Proof.
  unfold request_inv, inv_at. cbn. rewrite lookup_empty.
  repeat split; try lia; try (intros ? []); try reflexivity.
Qed.

Lemma step_inv e s :
  (forall id, request_inv s id) -> forall id, request_inv (step e s) id.
Proof.
  intros H id. unfold request_inv in *. destruct e as [m u d|id0 r|id0 r|tok u|].
  - (* Call *)
    cbn. destruct (decide (id = next_id s)) as [->|Hne].
    + rewrite lookup_insert_eq. apply inv_at_call.
      * apply request_interceptor_retry.
      * specialize (H (next_id s)).
        assert (Hp : pending s !! next_id s = None) by (apply H; lia).
        now rewrite Hp in H.
    + rewrite lookup_insert_ne by congruence.
      apply inv_at_frame with (nid := next_id s); [cbn; congruence | lia | apply H].
  - (* Response *)
    cbn. destruct (pending s !! id0) as [[[] c]|] eqn:Hp; try apply H.
    destruct (ok r) as [resp|].
    + cbn. destruct (decide (id = id0)) as [->|Hne].
      * rewrite lookup_delete_eq. eapply inv_at_settle. rewrite <- Hp. apply H.
      * rewrite lookup_delete_ne by congruence. apply H.
    + unfold on_error. destruct (should_refresh c r) eqn:Hsr.
      * unfold should_refresh in Hsr.
        apply andb_true_iff in Hsr as [Hsr Hauth]. apply andb_true_iff in Hsr as [_ Hretry].
        apply negb_true_iff in Hauth, Hretry.
        cbn. destruct (decide (id = id0)) as [->|Hne].
        -- rewrite lookup_insert_eq. apply inv_at_refresh; try assumption.
           rewrite <- Hp. apply H.
        -- rewrite lookup_insert_ne by congruence.
           apply inv_at_frame with (nid := next_id s); [cbn; congruence | lia | apply H].
      * cbn. destruct (decide (id = id0)) as [->|Hne].
        -- rewrite lookup_delete_eq. eapply inv_at_settle. rewrite <- Hp. apply H.
        -- rewrite lookup_delete_ne by congruence. apply H.
  - (* RefreshResponse *)
    cbn. destruct (pending s !! id0) as [[[] c]|] eqn:Hp; try apply H.
    destruct (on_refresh_cases id0 c r s) as [(resp & _ & _ & ->)|(e & _ & ->)].
    + cbn. destruct (decide (id = id0)) as [->|Hne].
      * rewrite lookup_insert_eq. apply inv_at_replay with (c := c).
        -- now rewrite request_interceptor_url.
        -- rewrite request_interceptor_retry. cbn.
           pose proof (H id0) as Hi. rewrite Hp in Hi. apply Hi.
        -- rewrite <- Hp. apply H.
      * rewrite lookup_insert_ne by congruence.
        apply inv_at_frame with (nid := next_id s); [cbn; congruence | lia | apply H].
    + assert (Hs : forall s0 : client,
                pending (redirect_to_login s0) = pending s0 /\
                next_id (redirect_to_login s0) = next_id s0 /\
                wire_log (redirect_to_login s0) = wire_log s0).
      { intros s0. unfold redirect_to_login. destruct (pathname s0) as [p|]; [|auto].
        destruct (includes p (js "/login")); auto. }
      destruct (Hs (setAccessToken None s)) as (E1 & E2 & E3).
      cbn [settle pending next_id wire_log]. rewrite E1, E2, E3. cbn.
      destruct (decide (id = id0)) as [->|Hne].
      * rewrite lookup_delete_eq. eapply inv_at_settle. rewrite <- Hp. apply H.
      * rewrite lookup_delete_ne by congruence. apply H.
  - apply H.
  - apply H.
Qed.

Lemma run_inv tr s :
  (forall id, request_inv s id) -> forall id, request_inv (run tr s) id.
Proof.
  revert s. induction tr as [|e tr IH]; intros s H; [exact H|].
  cbn. apply IH. now apply step_inv.
Qed.

End RequestInvariant.

(** A request can go out twice: once, and once more after a refresh. *)
Lemma retried_once_example :
  let s := run [listDatasets; Response 0 Examples.unauthorized;
                RefreshResponse 0 (Examples.refreshed (js "fresh"));
                Response 0 Examples.unauthorized] Examples.logged_in in
  sends 0 s = 2 /\ refreshes 0 s = 1 /\ pending s !! 0 = None.
Proof. vm_compute. repeat split. Qed.

(** C6. In every run of the client, a request goes on the network at most
    twice (once, and at most one retry) and causes at most one refresh
    call. A failure of a request that is already flagged, or whose URL
    contains /auth/, is rejected at once, without refresh and without
    retry; a request to an auth endpoint therefore goes out exactly once
    and never causes a refresh call. The five authentication calls of
    api.ts all have such URLs. *)
Theorem retry_at_most_once (tr : list event) (path : option jsstring) (id : nat) :
  let s := run tr (init path) in
  sends id s <= 2 /\ refreshes id s <= 1 /\
  (forall c, In (ApiRequest id c) (wire_log s) -> isAuthEndpoint c = true ->
             sends id s = 1 /\ refreshes id s = 0) /\
  (forall c r, pending s !! id = Some (AwaitingServer, c) ->
               _retry c = true \/ isAuthEndpoint c = true -> ok r = None ->
               step (Response id r) s = settle id (Rejected (ApiError c r)) s) /\
  (forall d, forallb is_auth_call [getTenants; register d; login d; refreshToken; logout]
             = true).
Proof.
  cbv zeta. pose proof (run_inv tr (init path) (init_inv path) id) as Hinv.
  unfold Spec.request_inv, Spec.inv_at in Hinv. fold (sends id (run tr (init path))) in Hinv.
  fold (refreshes id (run tr (init path))) in Hinv.
  set (s := run tr (init path)) in *.
  destruct Hinv as (H1 & H2 & H3 & H4).
  assert (Hbound : sends id s <= 2 /\ refreshes id s <= 1 /\
                   (sends id s = 2 -> refreshes id s = 1)).
  { destruct (pending s !! id) as [[[] c]|]; [destruct (_retry c)| |]; intuition lia. }
  destruct Hbound as (Hb1 & Hb2 & Hb3).
  split; [exact Hb1|]. split; [exact Hb2|]. split; [|split].
  - intros c Hin Hauth.
    assert (Hr : refreshes id s = 0).
    { destruct (refreshes id s) as [|n] eqn:E; [reflexivity|].
      rewrite H3 in Hauth; [discriminate | assumption | lia]. }
    split; [|exact Hr]. apply sent_counted in Hin. fold (sends id s) in Hin. lia.
  - intros c r Hp Hflag Hok. cbn. rewrite Hp, Hok. unfold on_error.
    replace (should_refresh c r) with false; [reflexivity|].
    unfold should_refresh. destruct Hflag as [-> | ->]; cbn;
      rewrite ?andb_false_r; reflexivity.
  - intros d. reflexivity.
Qed.

Lemma retry_at_most_once_witness :
  let s := run [refreshToken; Response 0 Examples.unauthorized] (init (Some (js "/login"))) in
  sends 0 s = 1 /\ refreshes 0 s = 0.
Proof.
  cbv zeta.
  pose proof (retry_at_most_once [refreshToken; Response 0 Examples.unauthorized]
                (Some (js "/login")) 0) as H.
  cbv zeta in H. destruct H as (_ & _ & H & _).
  apply (H (mkConfig (Some (js "/auth/refresh")) POST [] None false)).
  - vm_compute. left. reflexivity.
  - vm_compute. reflexivity.
Defined.

(* ===================================================================== *)
(** * Theorems: the refresh rotator *)
(* ===================================================================== *)

Section RotatorFacts.
Import Rotator.

Variable hash : string -> string.
Variables accessTokenTTL refreshTokenTTL : Z.

Lemma lookup_hash h st r : lookup h st = Some r -> token_hash r = h.
Proof.
  induction st as [|x st IH]; cbn; [discriminate|].
  destruct (String.eqb_spec (token_hash x) h); [intros [= <-]; assumption|exact IH].
Qed.

Lemma lookup_mark h h' to st :
  lookup h (mark h' to st) =
  (fun r => if String.eqb (token_hash r) h' && live (status r)
            then with_status to r else r) <$> lookup h st.
Proof.
  induction st as [|x st IH]; cbn; [reflexivity|].
  destruct (String.eqb (token_hash x) h' && live (status x)) eqn:E; cbn;
    destruct (String.eqb (token_hash x) h); cbn; rewrite ?E; auto.
Qed.

Lemma lookup_app h st r :
  lookup h (st ++ [r]) =
  match lookup h st with
  | Some x => Some x
  | None => if String.eqb (token_hash r) h then Some r else None
  end.
Proof.
  induction st as [|x st IH]; cbn; [reflexivity|].
  destruct (String.eqb (token_hash x) h); auto.
Qed.

Lemma mark_idempotent h to st :
  live to = false -> mark h to (mark h to st) = mark h to st.
Proof.
  intros Hto. unfold mark. rewrite map_map. apply map_ext. intros r.
  destruct (String.eqb (token_hash r) h && live (status r)) eqn:E; cbn.
  - rewrite Hto, andb_false_r. reflexivity.
  - rewrite E. reflexivity.
Qed.

Lemma live_in_chain_mark ch h to st :
  live to = false -> live_in_chain ch (mark h to st) <= live_in_chain ch st.
Proof.
  intros Hto. induction st as [|x st IH]; cbn; [lia|]. fold (mark h to st).
  destruct (String.eqb (token_hash x) h && live (status x)); cbn.
  - rewrite Hto, andb_false_r. destruct (_ && _); lia.
  - destruct (_ && _); lia.
Qed.

Lemma live_in_chain_mark_found h to st r :
  live to = false -> lookup h st = Some r -> live (status r) = true ->
  S (live_in_chain (chain r) (mark h to st)) <= live_in_chain (chain r) st.
Proof.
  intros Hto. induction st as [|x st IH]; cbn; [discriminate|]. fold (mark h to st).
  destruct (String.eqb (token_hash x) h) eqn:Eh; cbn.
  - intros [= ->] Hl. rewrite Hl. cbn. rewrite Hto, Nat.eqb_refl, andb_false_r. cbn.
    pose proof (live_in_chain_mark (chain r) h to st Hto). lia.
  - intros Hl Hlive. specialize (IH Hl Hlive). destruct (_ && _); lia.
Qed.

Lemma live_in_chain_app ch st r :
  live_in_chain ch (st ++ [r]) =
  live_in_chain ch st + (if Nat.eqb (chain r) ch && live (status r) then 1 else 0).
Proof. induction st as [|x st IH]; cbn; [lia|]. rewrite IH. lia. Qed.

(** What a successful rotation did. *)
Lemma rotate_success now raw fresh st st1 out :
  rotate hash accessTokenTTL refreshTokenTTL now raw fresh st = (st1, inr out) ->
  exists r,
    lookup (hash raw) st = Some r /\ live (status r) = true /\
    (expires_at r <? now)%Z = false /\
    lookup (hash fresh) (mark (hash raw) ROTATED st) = None /\
    exec (rotation hash refreshTokenTTL now r fresh st) st = Some st1 /\
    st1 = mark (hash raw) ROTATED st ++
          [mkRecord (length st) (user_id r) (hash fresh) (now + refreshTokenTTL) now
                    ACTIVE (chain r)] /\
    out = (mkClaims (user_id r) now (now + accessTokenTTL), fresh).
Proof.
  unfold rotate. destruct (lookup (hash raw) st) as [r|] eqn:Hl; [|discriminate].
  pose proof (lookup_hash _ _ _ Hl) as Hh.
  destruct (status r) eqn:Es; try discriminate;
    (assert (Hlive : live (status r) = true) by (rewrite Es; reflexivity));
    clear Es.
  all: destruct (expires_at r <? now)%Z eqn:Ee; [discriminate|].
  all: destruct (exec _ st) as [st'|] eqn:Hx; [|discriminate].
  all: intros [= <- <-]; exists r; repeat split; try assumption.
  all: cbn in Hx; rewrite Hh, Hl, Hlive in Hx; cbn in Hx.
  all: destruct (lookup (hash fresh) (mark (hash raw) ROTATED st)); try discriminate.
  all: try reflexivity; now injection Hx as <-.
Qed.

End RotatorFacts.

Import Rotator.

(** A valid token whose successor's hash is new can be rotated. *)
Lemma rotate_valid_succeeds (hash : string -> string) (attl rttl now : Z)
    (raw fresh : string) (st : store) :
  valid hash now st raw = true ->
  lookup (hash fresh) st = None ->
  exists st1 out, rotate hash attl rttl now raw fresh st = (st1, inr out).
Proof.
  unfold valid, rotate. destruct (lookup (hash raw) st) as [r|] eqn:Hl; [|discriminate].
  intros Hv Hf. apply andb_true_iff in Hv as [Hlive Hexp]. apply negb_true_iff in Hexp.
  pose proof (lookup_hash _ _ _ Hl) as Hh.
  assert (Hx : exists st1, exec (rotation hash rttl now r fresh st) st = Some st1).
  { cbn. rewrite Hh, Hl, Hlive. cbn. rewrite lookup_mark, Hf. cbn. eauto. }
  destruct Hx as [st1 Hx]. rewrite Hexp, Hx.
  destruct (status r); try discriminate; eauto.
Qed.

(** C3. A valid raw refresh token can be rotated once: the first call of
    [rotate] succeeds, and every later call with the same raw token, at
    any time and with any candidate successor, fails with InvalidToken and
    changes nothing, so two calls in either order give one success and one
    InvalidToken. The success marks the looked-up record ROTATED and
    inserts an ACTIVE record of the same user and chain in one
    transaction: whatever the point of interruption, the surviving store
    is the old one or the new one, the old and the new token are never
    both valid, and no chain gains a live record. *)
Theorem rotate_single_use (hash : string -> string) (attl rttl now : Z)
    (raw fresh : string) (st : store) :
  valid hash now st raw = true ->
  lookup (hash fresh) st = None ->
  exists st1 out r,
    lookup (hash raw) st = Some r /\
    rotate hash attl rttl now raw fresh st = (st1, inr out) /\
    (forall now' fresh',
        rotate hash attl rttl now' raw fresh' st1 = (st1, inl InvalidToken)) /\
    status <$> lookup (hash raw) st1 = Some ROTATED /\
    (exists r', lookup (hash fresh) st1 = Some r' /\ status r' = ACTIVE /\
                user_id r' = user_id r /\ chain r' = chain r) /\
    (forall k, let d := durable (rotation hash rttl now r fresh st) k st in
               (d = st \/ d = st1) /\
               (forall t, valid hash t d raw && valid hash t d fresh = false) /\
               (forall ch, live_in_chain ch d <= live_in_chain ch st)).
Proof.
  intros Hv Hf.
  destruct (rotate_valid_succeeds hash attl rttl now raw fresh st Hv Hf) as (st1 & out & Hrot).
  destruct (rotate_success hash attl rttl now raw fresh st st1 out Hrot)
    as (r & Hl & Hlive & Hexp & Hfm & Hx & Hst1 & Hout).
  pose proof (lookup_hash _ _ _ Hl) as Hh.
  assert (Hold : lookup (hash raw) st1 = Some (with_status ROTATED r)).
  { rewrite Hst1, lookup_app, lookup_mark, Hl. cbn.
    rewrite Hh, String.eqb_refl, Hlive. reflexivity. }
  assert (Hnew : lookup (hash fresh) st1 =
                 Some (mkRecord (length st) (user_id r) (hash fresh) (now + rttl) now
                                ACTIVE (chain r))).
  { rewrite Hst1, lookup_app, Hfm. cbn. rewrite String.eqb_refl. reflexivity. }
  assert (Hlive1 : forall ch, live_in_chain ch st1 <= live_in_chain ch st).
  { intros ch. rewrite Hst1, live_in_chain_app. cbn.
    destruct (Nat.eqb_spec (chain r) ch) as [<-|Hne]; cbn.
    - pose proof (live_in_chain_mark_found (hash raw) ROTATED st r eq_refl Hl Hlive). lia.
    - pose proof (live_in_chain_mark ch (hash raw) ROTATED st eq_refl). lia. }
  exists st1, out, r. split; [exact Hl|]. split; [exact Hrot|].
  split; [|split; [|split]].
  - intros now' fresh'. unfold rotate. rewrite Hold. reflexivity.
  - rewrite Hold. reflexivity.
  - eexists. split; [exact Hnew|]. repeat split.
  - intros k. cbv zeta. unfold durable. rewrite Hx.
    destruct (k <? length (rotation hash rttl now r fresh st)).
    + split; [now left|]. split; [|intros; lia].
      intros t. unfold valid at 2. rewrite Hf. apply andb_false_r.
    + split; [now right|]. split; [|exact Hlive1].
      intros t. unfold valid at 1. rewrite Hold. reflexivity.
Qed.

Lemma rotate_single_use_witness :
  exists st1 out,
    rotate (fun x => x) 900 604800 10 "raw-1" "raw-2" Examples.one_token = (st1, inr out) /\
    rotate (fun x => x) 900 604800 11 "raw-1" "raw-3" st1 = (st1, inl InvalidToken).
Proof.
  destruct (rotate_single_use (fun x => x) 900 604800 10 "raw-1" "raw-2" Examples.one_token
              eq_refl eq_refl) as (st1 & out & r & _ & H1 & H2 & _).
  exists st1, out. split; [exact H1 | apply H2].
Defined.

(** C8. POST /auth/logout answers 204 whether or not a refresh cookie is
    sent, and calling it again with the same cookie, by then invalid,
    answers 204 again and leaves the store as the first call left it; after
    the first call the cookie's token is not valid. *)
Theorem logout_idempotent (hash : string -> string) (cookie : option string) (st : store) :
  let st1 := (logout_endpoint hash cookie st).1 in
  logout_endpoint hash cookie st = (st1, 204%Z) /\
  logout_endpoint hash cookie st1 = (st1, 204%Z) /\
  logout_endpoint hash None st = (st, 204%Z) /\
  (forall raw now, cookie = Some raw -> valid hash now st1 raw = false).
Proof.
  cbv zeta. destruct cookie as [raw|]; unfold logout_endpoint; cbn [fst].
  - repeat split.
    + unfold revoke. rewrite mark_idempotent by reflexivity. reflexivity.
    + intros raw' now [= <-]. unfold valid, revoke. rewrite lookup_mark.
      destruct (lookup (hash raw) st) as [r|] eqn:Hl; cbn; [|reflexivity].
      rewrite (lookup_hash _ _ _ Hl), String.eqb_refl. cbn.
      destruct (live (status r)) eqn:E; cbn; [reflexivity|]. rewrite E. reflexivity.
  - repeat split. intros ? ? [=].
Qed.

Lemma logout_idempotent_witness :
  let st1 := (logout_endpoint (fun x => x) (Some "raw-1"%string) Examples.one_token).1 in
  logout_endpoint (fun x => x) (Some "raw-1"%string) st1 = (st1, 204%Z) /\
  valid (fun x => x) 10 st1 "raw-1" = false.
Proof.
  cbv zeta.
  pose proof (logout_idempotent (fun x => x) (Some "raw-1"%string) Examples.one_token) as H.
  cbv zeta in H. destruct H as (_ & H2 & _ & H4).
  split; [exact H2 | apply H4; reflexivity].
Defined.

(* ===================================================================== *)
(** * Further properties of the API client *)
(* ===================================================================== *)

Lemma startsWith_spec (s needle : jsstring) :
  startsWith s needle = true <-> exists q, s = needle ++ q.
Proof.
  revert s. induction needle as [|c needle IH]; intros s; cbn.
  - split; [eauto|intros _; destruct s; reflexivity].
  - destruct s as [|d s]; [split; [discriminate|intros [q [=]]]|].
    cbn. rewrite andb_true_iff, N.eqb_eq, IH. split.
    + intros [-> [q ->]]. eauto.
    + intros [q [= -> ->]]. eauto.
Qed.

Lemma includes_spec (s needle : jsstring) :
  includes s needle = true <-> exists p q, s = p ++ needle ++ q.
Proof.
  split.
  - induction s as [|c s IH]; cbn [includes]; rewrite orb_true_iff.
    + intros [H|[=]]. apply startsWith_spec in H as [q ->]. exists [], q. reflexivity.
    + intros [H|H].
      * apply startsWith_spec in H as [q ->]. exists [], q. reflexivity.
      * destruct (IH H) as (p & q & ->). exists (c :: p), q. reflexivity.
  - intros (p & q & ->). induction p as [|c p IH].
    + assert (H : startsWith (needle ++ q) needle = true) by (apply startsWith_spec; eauto).
      cbn [app]. destruct (needle ++ q); cbn [includes]; rewrite H; reflexivity.
    + cbn [app includes]. rewrite IH. apply orb_true_r.
Qed.

(** X1. The interceptor treats a request as an auth endpoint exactly when
    its URL is defined and contains /auth/ somewhere, not only at its
    start. *)
Theorem isAuthEndpoint_substring (c : config) :
  isAuthEndpoint c = true <->
  exists u p q, url c = Some u /\ u = p ++ js "/auth/" ++ q.
Proof.
  unfold isAuthEndpoint. destruct (url c) as [u|].
  - rewrite includes_spec. split.
    + intros (p & q & ->). eauto.
    + intros (u' & p & q & [= <-] & ->). eauto.
  - split; [discriminate|]. intros (u & _ & _ & [=] & _).
Qed.

Lemma isAuthEndpoint_substring_witness :
  isAuthEndpoint (Traffic.plain_config GET (js "/v1" ++ js "/auth/" ++ js "me") []) = true.
Proof.
  apply (isAuthEndpoint_substring
           (Traffic.plain_config GET (js "/v1" ++ js "/auth/" ++ js "me") [])).
  exists (js "/v1" ++ js "/auth/" ++ js "me"), (js "/v1"), (js "me").
  split; reflexivity.
Defined.

(** X2. A dataset request [/datasets/<id>] counts as an auth endpoint, and
    is therefore never refreshed, exactly when the id starts with "auth/"
    or contains "/auth/". *)
Theorem dataset_url_guard (id : jsstring) :
  isAuthEndpoint (Traffic.plain_config GET (js "/datasets/" ++ id) []) =
    startsWith id (js "auth/") || includes id (js "/auth/").
Proof.
  unfold isAuthEndpoint, Traffic.plain_config. cbn [url].
  let a := eval vm_compute in (js "/datasets/") in change (js "/datasets/") with a.
  let a := eval vm_compute in (js "/auth/") in change (js "/auth/") with a.
  let a := eval vm_compute in (js "auth/") in change (js "auth/") with a.
  cbn [app includes startsWith N.eqb Pos.eqb andb orb]. reflexivity.
Qed.

(** X3. For a request on the network, a failed answer leads to a refresh
    call exactly when its status is 401, the request is not flagged and its
    URL does not contain /auth/. Every other failure (another status, or no
    response at all) is handed to the caller as it is: the promise is
    rejected with that error and token, user, location and wire stay as
    they are. *)
Theorem refresh_only_on_401 (s : client) (id : nat) (c : config) (r : reply) :
  pending s !! id = Some (AwaitingServer, c) ->
  ok r = None ->
  let s' := step (Response id r) s in
  (refresh_calls s' = S (refresh_calls s) <->
     status_is 401 r = true /\ _retry c = false /\ isAuthEndpoint c = false) /\
  (status_is 401 r = false ->
     s' = settle id (Rejected (ApiError c r)) s /\
     accessToken s' = accessToken s /\ user s' = user s /\
     pathname s' = pathname s /\ wire_log s' = wire_log s).
Proof.
  intros Hp Hok. cbn. rewrite Hp, Hok. unfold on_error, should_refresh.
  destruct (status_is 401 r), (_retry c), (isAuthEndpoint c); cbn [andb negb];
    unfold refresh_calls; cbn [wire_log settle set_pending emit count_wire is_refresh_call];
    (split; [split|]).
  all: try (intros (?&?&?); discriminate).
  all: try (intros H; exfalso; lia).
  all: try (intros [=]).
  all: try (intros _; repeat split; reflexivity).
  all: repeat split.
Qed.

Lemma refresh_only_on_401_witness :
  let s := run [listDatasets] Examples.logged_in in
  let r := Some (mkResponse 500 OtherBody) in
  accessToken (step (Response 0 r) s) = accessToken s /\
  wire_log (step (Response 0 r) s) = wire_log s.
Proof.
  cbv zeta.
  pose proof (refresh_only_on_401 (run [listDatasets] Examples.logged_in) 0 _
                (Some (mkResponse 500 OtherBody)) eq_refl eq_refl) as H.
  cbv zeta in H. destruct H as [_ H]. destruct (H eq_refl) as (_ & H1 & _ & _ & H2).
  split; [exact H1 | exact H2].
Defined.

Lemma redirect_keeps (s : client) :
  accessToken (redirect_to_login s) = accessToken s /\
  user (redirect_to_login s) = user s /\
  authLoading (redirect_to_login s) = authLoading s /\
  pending (redirect_to_login s) = pending s /\
  next_id (redirect_to_login s) = next_id s /\
  settled (redirect_to_login s) = settled s /\
  wire_log (redirect_to_login s) = wire_log s.
Proof.
  unfold redirect_to_login. destruct (pathname s) as [p|]; [|repeat split].
  destruct (includes p (js "/login")); repeat split.
Qed.

Lemma step_keeps_user (e : event) (s : client) :
  Traffic.is_auth_event e = false ->
  user (step e s) = user s /\ authLoading (step e s) = authLoading s.
Proof.
  destruct e as [m u d|id r|id r|tok u|]; cbn; try discriminate; intros _.
  - split; reflexivity.
  - destruct (pending s !! id) as [[[] c]|]; try (split; reflexivity).
    destruct (ok r); [split; reflexivity|].
    unfold on_error. destruct (should_refresh c r); split; reflexivity.
  - destruct (pending s !! id) as [[[] c]|]; try (split; reflexivity).
    destruct (on_refresh_cases id c r s) as [(resp & _ & _ & ->)|(e & _ & ->)];
      [split; reflexivity|]. cbn.
    destruct (redirect_keeps (setAccessToken None s)) as (_ & H1 & H2 & _).
    split; assumption.
Qed.

(** X4. The API client never logs the user in or out: in a run without
    calls of [AuthProvider.login] and [AuthProvider.logout], the user of
    the auth context and its loading flag stay as they were, whatever
    requests, answers and refresh results occur. In particular a failed
    refresh clears the token but leaves the user set. *)
Theorem api_client_keeps_user (tr : list event) (s : client) :
  forallb (fun e => negb (Traffic.is_auth_event e)) tr = true ->
  user (run tr s) = user s /\ authLoading (run tr s) = authLoading s.
Proof.
  revert s. induction tr as [|e tr IH]; intros s; cbn [forallb]; [auto|].
  intros H. apply andb_true_iff in H as [He Htr]. apply negb_true_iff in He.
  change (run (e :: tr) s) with (run tr (step e s)).
  destruct (IH (step e s) Htr) as [-> ->]. now apply step_keeps_user.
Qed.

Lemma api_client_keeps_user_witness :
  user (run [listDatasets; Response 0 Examples.unauthorized;
             RefreshResponse 0 Examples.unauthorized] Examples.logged_in)
    = Some Examples.alice /\
  accessToken (run [listDatasets; Response 0 Examples.unauthorized;
                    RefreshResponse 0 Examples.unauthorized] Examples.logged_in)
    = None.
Proof.
  split; [|vm_compute; reflexivity].
  apply (api_client_keeps_user
           [listDatasets; Response 0 Examples.unauthorized;
            RefreshResponse 0 Examples.unauthorized] Examples.logged_in).
  reflexivity.
Defined.

Lemma step_plain_keeps_token (e : event) (s : client) :
  Traffic.is_plain e = true ->
  accessToken (step e s) = accessToken s /\ pathname (step e s) = pathname s.
Proof.
  destruct e as [m u d|id r|id r|tok u|]; cbn; try discriminate; intros _.
  - split; reflexivity.
  - destruct (pending s !! id) as [[[] c]|]; try (split; reflexivity).
    destruct (ok r); [split; reflexivity|].
    unfold on_error. destruct (should_refresh c r); split; reflexivity.
Qed.

(** X5. Sending requests and receiving their answers never changes the
    access token in memory or the location, whatever the answers are,
    401 included: only a refresh result, a login or a logout do. *)
Theorem plain_traffic_keeps_token (tr : list event) (s : client) :
  forallb Traffic.is_plain tr = true ->
  accessToken (run tr s) = accessToken s /\ pathname (run tr s) = pathname s.
Proof.
  revert s. induction tr as [|e tr IH]; intros s; cbn [forallb]; [auto|].
  intros H. apply andb_true_iff in H as [He Htr].
  change (run (e :: tr) s) with (run tr (step e s)).
  destruct (IH (step e s) Htr) as [-> ->]. now apply step_plain_keeps_token.
Qed.

Lemma plain_traffic_keeps_token_witness :
  accessToken (run Examples.two_failures Examples.logged_in) = Some (js "stale").
Proof.
  apply (plain_traffic_keeps_token Examples.two_failures Examples.logged_in).
  reflexivity.
Defined.

(** X6. When the refresh of a waiting request succeeds with a non-empty
    access token, that token becomes the token in memory and the request
    goes out again exactly once, with the header [Bearer <token>] and the
    same URL, method and body, still flagged. *)
Theorem refresh_replays_with_new_token
    (s : client) (id : nat) (c : config) (r : reply) (resp : response) (t : jsstring) :
  pending s !! id = Some (AwaitingRefresh, c) ->
  ok r = Some resp ->
  access_token_of (rdata resp) = Some t ->
  t <> [] ->
  let s' := step (RefreshResponse id r) s in
  accessToken s' = Some t /\
  exists c',
    pending s' !! id = Some (AwaitingServer, c') /\
    wire_log s' = ApiRequest id c' :: wire_log s /\
    Authorization c' = Some (js "Bearer " ++ t) /\
    url c' = url c /\ http_method c' = http_method c /\ data c' = data c /\
    _retry c' = _retry c.
Proof.
  intros Hp Hok Ht Hne. cbn. rewrite Hp. unfold on_refresh. rewrite Hok, Ht.
  destruct (rdata resp); try discriminate. cbn [is_null access_token_of] in *.
  split; [reflexivity|]. eexists. split; [apply lookup_insert_eq|].
  split; [reflexivity|]. cbn. unfold request_interceptor.
  destruct t as [|x t]; [congruence|]. cbn. repeat split.
Qed.

Lemma refresh_replays_with_new_token_witness :
  let s := run [listDatasets; Response 0 Examples.unauthorized] Examples.logged_in in
  accessToken (step (RefreshResponse 0 (Examples.refreshed (js "fresh"))) s)
    = Some (js "fresh").
Proof.
  cbv zeta.
  refine (proj1 (refresh_replays_with_new_token
                   (run [listDatasets; Response 0 Examples.unauthorized] Examples.logged_in)
                   0 _ (Examples.refreshed (js "fresh")) _ (js "fresh")
                   eq_refl eq_refl eq_refl _)).
  discriminate.
Defined.

(** X7. The interceptor does not check the body of a 2xx refresh response
    for an [access_token]. When the body lacks one and is not [null] (the
    object [{}], the empty body of a 204), the token in memory becomes
    undefined and the request is replayed with the header
    "Bearer undefined". When the body is [null], reading the field throws
    inside the [try]: the token is cleared, the request is rejected with
    the TypeError and nothing goes on the wire. *)
Theorem refresh_without_token_replays
    (s : client) (id : nat) (c : config) (r : reply) (resp : response) :
  pending s !! id = Some (AwaitingRefresh, c) ->
  ok r = Some resp ->
  access_token_of (rdata resp) = None ->
  let s' := step (RefreshResponse id r) s in
  accessToken s' = None /\
  if is_null (rdata resp) then
    wire_log s' = wire_log s /\
    pending s' !! id = None /\
    settled s' !! id = Some (Rejected TypeError)
  else
    wire_log s' =
      ApiRequest id (with_Authorization (js "Bearer " ++ js "undefined") c) :: wire_log s /\
    pending s' !! id =
      Some (AwaitingServer, with_Authorization (js "Bearer " ++ js "undefined") c).
Proof.
  intros Hp Hok Ht. cbn. rewrite Hp. unfold on_refresh. rewrite Hok, Ht.
  destruct (is_null (rdata resp)).
  - destruct (redirect_keeps (setAccessToken None s)) as (E1 & _ & _ & E4 & _ & E6 & E7).
    cbn [settle accessToken wire_log pending settled]. rewrite E1, E4, E6, E7.
    repeat split; [apply lookup_delete_eq | apply lookup_insert_eq].
  - repeat split. apply lookup_insert_eq.
Qed.

Lemma refresh_without_token_replays_witness :
  let s := run [listDatasets; Response 0 Examples.unauthorized] Examples.logged_in in
  accessToken (step (RefreshResponse 0 (Some (mkResponse 200 OtherBody))) s) = None /\
  accessToken (step (RefreshResponse 0 (Some (mkResponse 200 NullBody))) s) = None /\
  wire_log (step (RefreshResponse 0 (Some (mkResponse 200 NullBody))) s) = wire_log s.
Proof.
  cbv zeta.
  pose proof (refresh_without_token_replays
                (run [listDatasets; Response 0 Examples.unauthorized] Examples.logged_in)
                0 _ (Some (mkResponse 200 OtherBody)) _ eq_refl eq_refl eq_refl) as H1.
  pose proof (refresh_without_token_replays
                (run [listDatasets; Response 0 Examples.unauthorized] Examples.logged_in)
                0 _ (Some (mkResponse 200 NullBody)) _ eq_refl eq_refl eq_refl) as H2.
  cbv zeta in H1, H2.
  split; [exact (proj1 H1)|]. split; [exact (proj1 H2) | exact (proj1 (proj2 H2))].
Defined.

(** X8. The request interceptor attaches the token that is in memory when
    the request is made: right after a login with a non-empty token the
    request carries [Bearer <token>]; right after a logout, or after a
    login with an empty token, it carries no Authorization header. *)
Theorem authorization_follows_session (s : client) (m : method) (u : jsstring) (d : payload) :
  (forall t usr, t <> [] ->
     wire_log (step (Call m u d) (step (Login (Some t) usr) s)) =
       ApiRequest (next_id s)
         (with_Authorization (js "Bearer " ++ t) (Traffic.plain_config m u d))
       :: wire_log s) /\
  (forall usr,
     wire_log (step (Call m u d) (step (Login (Some []) usr) s)) =
       ApiRequest (next_id s) (Traffic.plain_config m u d) :: wire_log s) /\
  wire_log (step (Call m u d) (step Logout s)) =
    ApiRequest (next_id s) (Traffic.plain_config m u d) :: wire_log s.
Proof.
  repeat split. intros t usr Ht. destruct t as [|x t]; [congruence|]. reflexivity.
Qed.

Lemma authorization_follows_session_witness :
  wire_log (step listDatasets (step Logout Examples.logged_in)) =
    [ApiRequest 0 (Traffic.plain_config GET (js "/datasets") [])].
Proof.
  exact (proj2 (proj2 (authorization_follows_session Examples.logged_in GET
                         (js "/datasets") []))).
Defined.

(** ** Refresh calls never outnumber requests *)

Section RefreshBound.
Import Spec Traffic.

Lemma first_attempts_insert_new (m : gmap nat (phase * config)) id c :
  m !! id = None -> _retry c = false ->
  size (filter first_attempt (<[id := (AwaitingServer, c)]> m))
  = S (size (filter first_attempt m)).
Proof.
  intros Hm Hc. rewrite map_filter_insert_True by (split; [reflexivity|exact Hc]).
  apply map_size_insert_None, map_lookup_filter_None. now left.
Qed.

Lemma first_attempts_delete (m : gmap nat (phase * config)) id :
  size (filter first_attempt (delete id m)) <= size (filter first_attempt m).
Proof.
  rewrite map_filter_delete, map_size_delete.
  destruct (filter first_attempt m !! id); cbn; lia.
Qed.

Lemma first_attempts_flag (m : gmap nat (phase * config)) id c c' :
  m !! id = Some (AwaitingServer, c) -> _retry c = false ->
  S (size (filter first_attempt (<[id := (AwaitingRefresh, c')]> m)))
  = size (filter first_attempt m).
Proof.
  intros Hm Hc. rewrite map_filter_insert_False by (intros [[=] _]).
  rewrite map_filter_delete.
  assert (Hin : filter first_attempt m !! id = Some (AwaitingServer, c)).
  { apply map_lookup_filter_Some. split; [assumption|]. split; [reflexivity|exact Hc]. }
  rewrite map_size_delete, Hin. cbn.
  assert (size (filter first_attempt m) <> 0); [|lia].
  intros H0. apply map_size_empty_inv in H0. rewrite H0, lookup_empty in Hin. discriminate.
Qed.

Lemma first_attempts_replay (m : gmap nat (phase * config)) id c :
  _retry c = true ->
  size (filter first_attempt (<[id := (AwaitingServer, c)]> m))
  <= size (filter first_attempt m).
Proof.
  intros Hc. rewrite map_filter_insert_False by (intros [_ H]; cbn in H; congruence).
  apply first_attempts_delete.
Qed.

Lemma step_bounded e s :
  (forall id, request_inv s id) -> bounded s -> bounded (step e s).
Proof.
  intros Hinv Hb. unfold bounded, first_attempts, refresh_calls in *.
  destruct e as [m u d|id r|id r|tok u|]; cbn; try exact Hb.
  - rewrite first_attempts_insert_new; [lia| |apply request_interceptor_retry].
    apply (Hinv (next_id s)). lia.
  - destruct (pending s !! id) as [[[] c]|] eqn:Hp; try exact Hb.
    destruct (ok r).
    + cbn. pose proof (first_attempts_delete (pending s) id). lia.
    + unfold on_error. destruct (should_refresh c r) eqn:Hs; cbn.
      * unfold should_refresh in Hs. apply andb_true_iff in Hs as [Hs _].
        apply andb_true_iff in Hs as [_ Hs]. apply negb_true_iff in Hs.
        pose proof (first_attempts_flag (pending s) id c (with_retry c) Hp Hs). lia.
      * pose proof (first_attempts_delete (pending s) id). lia.
  - destruct (pending s !! id) as [[[] c]|] eqn:Hp; try exact Hb.
    destruct (on_refresh_cases id c r s) as [(resp & _ & _ & ->)|(e & _ & ->)].
    + cbn. pose proof (Hinv id) as Hi. unfold request_inv in Hi. rewrite Hp in Hi.
      destruct Hi as ((Hc & _) & _).
      pose proof (first_attempts_replay (pending s) id
                    (request_interceptor (access_token_of (rdata resp))
                       (with_Authorization (bearer (access_token_of (rdata resp))) c))) as H.
      rewrite request_interceptor_retry in H. specialize (H Hc). lia.
    + destruct (redirect_keeps (setAccessToken None s)) as (_ & _ & _ & E1 & E2 & _ & E3).
      cbn [settle pending next_id wire_log]. rewrite E1, E2, E3. cbn.
      pose proof (first_attempts_delete (pending s) id). lia.
Qed.

Lemma run_bounded tr s :
  (forall id, request_inv s id) -> bounded s -> bounded (run tr s).
Proof.
  revert s. induction tr as [|e tr IH]; intros s Hinv Hb; [exact Hb|].
  change (run (e :: tr) s) with (run tr (step e s)).
  apply IH; [now apply step_inv | now apply step_bounded].
Qed.

Lemma next_id_calls tr s : next_id (run tr s) = next_id s + calls tr.
Proof.
  revert s. induction tr as [|e tr IH]; intros s; [cbn; lia|].
  change (run (e :: tr) s) with (run tr (step e s)). rewrite IH.
  assert (H : next_id (step e s) = next_id s + (if is_call e then 1 else 0)).
  { destruct e as [m u d|id r|id r|tok u|]; cbn; try lia.
    - destruct (pending s !! id) as [[[] c]|]; try lia.
      destruct (ok r); [cbn; lia|]. unfold on_error.
      destruct (should_refresh c r); cbn; lia.
    - destruct (pending s !! id) as [[[] c]|]; try lia.
      destruct (on_refresh_cases id c r s) as [(resp & _ & _ & ->)|(e0 & _ & ->)];
        [cbn; lia|]. cbn.
      destruct (redirect_keeps (setAccessToken None s)) as (_ & _ & _ & _ & E & _).
      rewrite E. cbn. lia. }
  rewrite H. unfold calls. cbn. destruct (is_call e); cbn; lia.
Qed.

End RefreshBound.

(** X9. In every run of the client the number of refresh calls is at most
    the number of requests the pages have made through [api]; request ids
    are handed out one per such request. *)
Theorem refresh_calls_bounded (tr : list event) (path : option jsstring) :
  refresh_calls (run tr (init path)) <= Traffic.calls tr /\
  next_id (run tr (init path)) = Traffic.calls tr.
Proof.
  pose proof (run_bounded tr (init path) (init_inv path)) as H.
  assert (H0 : Traffic.bounded (init path)).
  { unfold Traffic.bounded, Traffic.first_attempts, refresh_calls. cbn.
    rewrite map_filter_empty, map_size_empty. lia. }
  specialize (H H0). unfold Traffic.bounded in H.
  pose proof (next_id_calls tr (init path)) as Hn. cbn in Hn. split; lia.
Qed.

(* ===================================================================== *)
(** * Properties of the pages and of the auth context *)
(* ===================================================================== *)

Lemma detail_or_nonempty (e : failure) (fallback : jsstring) :
  fallback <> [] -> RegisterPage.detail_or e fallback <> [].
Proof.
  intros Hf. unfold RegisterPage.detail_or.
  destruct (detail_of _) as [[|x d]|]; try assumption. discriminate.
Qed.

(** A request to an auth endpoint settles with the first answer. *)
Lemma auth_call_settles (c : client) (m : method) (u : jsstring) (d : payload) (r : reply) :
  includes u (js "/auth/") = true ->
  let id := next_id c in
  let cfg := request_interceptor (accessToken c) (Traffic.plain_config m u d) in
  let c2 := step (Response id r) (step (Call m u d) c) in
  wire_log c2 = ApiRequest id cfg :: wire_log c /\
  pending c2 !! id = None /\
  accessToken c2 = accessToken c /\ user c2 = user c /\ pathname c2 = pathname c /\
  authLoading c2 = authLoading c /\ next_id c2 = S (next_id c) /\
  settled c2 !! id =
    Some match ok r with
         | Some resp => Resolved resp
         | None => Rejected (ApiError cfg r)
         end.
Proof.
  intros Hu. cbv zeta. cbn. rewrite lookup_insert_eq.
  destruct (ok r) as [resp|] eqn:Hok; cbn.
  - rewrite lookup_delete_eq, lookup_insert_eq. repeat split.
  - assert (Hsr : should_refresh
                    (request_interceptor (accessToken c) (Traffic.plain_config m u d)) r
                  = false).
    { unfold should_refresh.
      rewrite (isAuthEndpoint_url _ (Traffic.plain_config m u d))
        by apply request_interceptor_url.
      unfold isAuthEndpoint. cbn [Traffic.plain_config url]. rewrite Hu.
      apply andb_false_r. }
    unfold on_error. fold (Traffic.plain_config m u d). rewrite Hsr. cbn.
    rewrite lookup_delete_eq, lookup_insert_eq. repeat split.
Qed.

(** X10. Submitting the login form always sends one POST /auth/login with
    the e-mail and the password as typed (the handler checks nothing). If
    the answer is 2xx and its body is not [null], the token and the user
    of the body are installed and the page moves to /dashboard. If the
    answer is 2xx with the body [null], destructuring it throws: nothing
    is installed, the page stays and the form shows the fixed text. If the
    answer is not 2xx, whatever the status, 401 included, no refresh call
    is made and token, user and location stay as they were; the form then
    shows the server's [detail] when that is a non-empty string, the fixed
    text when it is absent or empty, and [setError] receives the [detail]
    itself when that is a truthy value that is no string. Loading is off
    in every case that leaves a text in the form. *)
Theorem login_flow (f : LoginPage.form) (c : client) (r : reply) :
  let id := next_id c in
  let cfg := request_interceptor (accessToken c)
               (Traffic.plain_config POST (js "/auth/login")
                  [("email"%string, LoginPage.email f);
                   ("password"%string, LoginPage.password f)]) in
  let f1 := (LoginPage.handleSubmit f c).1 in
  let c2 := step (Response id r) (LoginPage.handleSubmit f c).2 in
  let fallback := js "Login failed. Please try again." in
  wire_log c2 = ApiRequest id cfg :: wire_log c /\
  match ok r with
  | Some resp =>
      settled c2 !! id = Some (Resolved resp) /\
      if is_null (rdata resp) then
        LoginPage.handleSubmit_resume (Resolved resp) f1 c2 =
          Some (LoginPage.mkForm (LoginPage.email f) (LoginPage.password f) fallback false, c2)
      else
        exists out,
          LoginPage.handleSubmit_resume (Resolved resp) f1 c2 = Some out /\
          out.1 = LoginPage.mkForm (LoginPage.email f) (LoginPage.password f) [] false /\
          accessToken out.2 = access_token_of (rdata resp) /\
          user out.2 = Some (user_of (rdata resp)) /\
          pathname out.2 = Some (js "/dashboard")
  | None =>
      settled c2 !! id = Some (Rejected (ApiError cfg r)) /\
      accessToken c2 = accessToken c /\ user c2 = user c /\ pathname c2 = pathname c /\
      if RegisterPage.detail_is_value (ApiError cfg r) then
        LoginPage.handleSubmit_resume (Rejected (ApiError cfg r)) f1 c2 = None
      else
        RegisterPage.detail_or (ApiError cfg r) fallback <> [] /\
        LoginPage.handleSubmit_resume (Rejected (ApiError cfg r)) f1 c2 =
          Some (LoginPage.mkForm (LoginPage.email f) (LoginPage.password f)
                  (RegisterPage.detail_or (ApiError cfg r) fallback) false, c2)
  end.
Proof.
  cbv zeta.
  destruct (auth_call_settles c POST (js "/auth/login")
              [("email"%string, LoginPage.email f); ("password"%string, LoginPage.password f)]
              r eq_refl) as (Hw & _ & Ht & Hu & Hp & _ & _ & Hs).
  cbv zeta in *. unfold LoginPage.handleSubmit, login. cbn [fst snd].
  split; [exact Hw|]. rewrite Hs. destruct (ok r) as [resp|].
  - split; [reflexivity|]. unfold LoginPage.handleSubmit_resume.
    destruct (is_null (rdata resp)); [reflexivity|].
    eexists. split; [reflexivity|]. repeat split.
  - repeat split; try assumption.
    unfold LoginPage.handleSubmit_resume, LoginPage.handleSubmit_catch,
      RegisterPage.caught_message.
    destruct (RegisterPage.detail_is_value _); [reflexivity|].
    split; [apply detail_or_nonempty; discriminate | reflexivity].
Qed.

Lemma login_flow_witness :
  let f := LoginPage.mkForm (js "a@acme.com") (js "wrong") [] false in
  let c := init (Some (js "/login")) in
  refresh_calls (step (Response 0 Examples.unauthorized) (LoginPage.handleSubmit f c).2) = 0.
Proof.
  cbv zeta.
  pose proof (login_flow (LoginPage.mkForm (js "a@acme.com") (js "wrong") [] false)
                (init (Some (js "/login"))) Examples.unauthorized) as H.
  cbv zeta in H. destruct H as [H _]. unfold refresh_calls.
  etransitivity; [exact (f_equal (count_wire is_refresh_call) H) | reflexivity].
Defined.

(** X11. Submitting a registration form whose passwords agree and have at
    least 8 code units sends one POST /auth/register with e-mail, password
    and the selected tenant id. A 2xx answer whose body is not [null]
    installs the token and the user of its body and moves to /dashboard; a
    2xx answer with the body [null] installs nothing, leaves the page and
    shows the fixed text. Any other answer, 401 included, causes no
    refresh call and leaves token, user and location as they were; the
    form then shows the server's [detail] when that is a non-empty string,
    the fixed text when it is absent or empty, and [setError] receives the
    [detail] itself when that is a truthy value that is no string. Loading
    is off in every case that leaves a text in the form. *)
Theorem register_flow (f : RegisterPage.form) (c : client) (r : reply) :
  RegisterPage.password f = RegisterPage.confirmPassword f ->
  8 <= length (RegisterPage.password f) ->
  let id := next_id c in
  let cfg := request_interceptor (accessToken c)
               (Traffic.plain_config POST (js "/auth/register")
                  [("email"%string, RegisterPage.email f);
                   ("password"%string, RegisterPage.password f);
                   ("tenant_id"%string, RegisterPage.tenantId f)]) in
  let f1 := (RegisterPage.handleSubmit f c).1 in
  let c2 := step (Response id r) (RegisterPage.handleSubmit f c).2 in
  let fallback := js "Registration failed. Please try again." in
  f1 = RegisterPage.setIsLoading true (RegisterPage.setError [] f) /\
  wire_log c2 = ApiRequest id cfg :: wire_log c /\
  match ok r with
  | Some resp =>
      settled c2 !! id = Some (Resolved resp) /\
      if is_null (rdata resp) then
        RegisterPage.handleSubmit_resume (Resolved resp) f1 c2 =
          Some (RegisterPage.setIsLoading false (RegisterPage.setError fallback f), c2)
      else
        exists out,
          RegisterPage.handleSubmit_resume (Resolved resp) f1 c2 = Some out /\
          RegisterPage.isLoading out.1 = false /\ RegisterPage.error out.1 = [] /\
          accessToken out.2 = access_token_of (rdata resp) /\
          user out.2 = Some (user_of (rdata resp)) /\
          pathname out.2 = Some (js "/dashboard")
  | None =>
      settled c2 !! id = Some (Rejected (ApiError cfg r)) /\
      accessToken c2 = accessToken c /\ user c2 = user c /\ pathname c2 = pathname c /\
      if RegisterPage.detail_is_value (ApiError cfg r) then
        RegisterPage.handleSubmit_resume (Rejected (ApiError cfg r)) f1 c2 = None
      else
        RegisterPage.detail_or (ApiError cfg r) fallback <> [] /\
        RegisterPage.handleSubmit_resume (Rejected (ApiError cfg r)) f1 c2 =
          Some (RegisterPage.setIsLoading false
                  (RegisterPage.setError (RegisterPage.detail_or (ApiError cfg r) fallback) f),
                c2)
  end.
Proof.
  intros Heq Hlen. cbv zeta.
  destruct (auth_call_settles c POST (js "/auth/register")
              [("email"%string, RegisterPage.email f);
               ("password"%string, RegisterPage.password f);
               ("tenant_id"%string, RegisterPage.tenantId f)]
              r eq_refl) as (Hw & _ & Ht & Hu & Hp & _ & _ & Hs).
  cbv zeta in *.
  assert (Hsub : RegisterPage.handleSubmit f c =
                 (RegisterPage.setIsLoading true (RegisterPage.setError [] f),
                  step (register [("email"%string, RegisterPage.email f);
                                  ("password"%string, RegisterPage.password f);
                                  ("tenant_id"%string, RegisterPage.tenantId f)]) c)).
  { unfold RegisterPage.handleSubmit.
    cbn [RegisterPage.password RegisterPage.confirmPassword RegisterPage.setError
         RegisterPage.email RegisterPage.tenantId].
    replace (jsstring_eqb (RegisterPage.password f) (RegisterPage.confirmPassword f)) with true
      by (symmetry; now apply jsstring_eqb_eq).
    cbn [negb]. destruct (Nat.ltb_spec (length (RegisterPage.password f)) 8); [lia|].
    reflexivity. }
  rewrite Hsub. unfold register. cbn [fst snd].
  split; [reflexivity|]. split; [exact Hw|]. rewrite Hs. destruct (ok r) as [resp|].
  - split; [reflexivity|]. unfold RegisterPage.handleSubmit_resume.
    destruct (is_null (rdata resp)); [reflexivity|].
    eexists. split; [reflexivity|]. repeat split.
  - repeat split; try assumption.
    unfold RegisterPage.handleSubmit_resume, RegisterPage.handleSubmit_catch,
      RegisterPage.caught_message.
    destruct (RegisterPage.detail_is_value _); [reflexivity|].
    split; [apply detail_or_nonempty; discriminate | reflexivity].
Qed.

Lemma register_flow_witness :
  let f := RegisterPage.mkForm (js "a@acme.com") (js "password123") (js "password123")
             (js "t-1") [] [] false in
  let c := init (Some (js "/register")) in
  exists out,
    RegisterPage.handleSubmit_resume
      (Resolved (mkResponse 200 (AuthBody (js "tok") (js "u-1") (js "t-1") (js "a@acme.com"))))
      (RegisterPage.handleSubmit f c).1
      (step (Response 0 (Examples.refreshed (js "tok"))) (RegisterPage.handleSubmit f c).2)
      = Some out /\
    accessToken out.2 = Some (js "tok") /\ pathname out.2 = Some (js "/dashboard").
Proof.
  cbv zeta.
  pose proof (register_flow
                (RegisterPage.mkForm (js "a@acme.com") (js "password123") (js "password123")
                   (js "t-1") [] [] false)
                (init (Some (js "/register"))) (Examples.refreshed (js "tok"))
                eq_refl ltac:(vm_compute; lia)) as H.
  cbv zeta in H. destruct H as (_ & _ & H).
  change (ok (Examples.refreshed (js "tok"))) with
    (Some (mkResponse 200 (AuthBody (js "tok") (js "u-1") (js "t-1") (js "a@acme.com")))) in H.
  cbn [is_null rdata] in H.
  destruct H as (_ & out & H0 & _ & _ & H1 & _ & H2).
  exists out. split; [exact H0|]. split; [exact H1 | exact H2].
Defined.

Lemma silent_reauth_facts (r : reply) (s : client) :
  let s' := AuthContext.silent_reauth r s in
  authLoading s' = false /\
  wire_log s' =
    ApiRequest (next_id s)
      (request_interceptor (accessToken s)
         (Traffic.plain_config POST (js "/auth/refresh") []))
    :: wire_log s /\
  refresh_calls s' = refresh_calls s /\
  pathname s' = pathname s /\
  match ok r with
  | Some resp =>
      if is_null (rdata resp) then accessToken s' = None /\ user s' = None
      else accessToken s' = access_token_of (rdata resp) /\
           user s' = Some (user_of (rdata resp))
  | None => accessToken s' = None /\ user s' = None
  end.
Proof.
  cbv zeta. unfold AuthContext.silent_reauth, AuthContext.initAuth, refreshToken.
  destruct (auth_call_settles s POST (js "/auth/refresh") [] r eq_refl)
    as (Hw & _ & _ & _ & Hp & _ & _ & Hs).
  cbv zeta in *. rewrite Hs. unfold refresh_calls, initAuth_resume.
  destruct (ok r) as [resp|]; [destruct (is_null (rdata resp))|];
    cbn [setIsLoading setUser setAccessToken
         authLoading wire_log pathname accessToken user]; rewrite Hw, Hp; repeat split.
Qed.

(** X12. The silent re-authentication on mount sends exactly one POST
    /auth/refresh and never a refresh call of the interceptor, whatever
    the answer. A 2xx answer whose body is not [null] installs the token
    and a user built from its body (also when the body lacks those
    fields); a 2xx answer with the body [null], any other answer, or none,
    clears token and user. Loading ends either way. *)
Theorem silent_reauth_outcome (r : reply) (s : client) :
  let s' := AuthContext.silent_reauth r s in
  authLoading s' = false /\
  wire_log s' =
    ApiRequest (next_id s)
      (request_interceptor (accessToken s)
         (Traffic.plain_config POST (js "/auth/refresh") []))
    :: wire_log s /\
  refresh_calls s' = refresh_calls s /\
  pathname s' = pathname s /\
  match ok r with
  | Some resp =>
      if is_null (rdata resp) then accessToken s' = None /\ user s' = None
      else accessToken s' = access_token_of (rdata resp) /\
           user s' = Some (user_of (rdata resp))
  | None => accessToken s' = None /\ user s' = None
  end.
Proof. exact (silent_reauth_facts r s). Qed.

Lemma silent_reauth_outcome_witness :
  user (AuthContext.silent_reauth (Some (mkResponse 200 OtherBody)) (init None))
    = Some (mkUser None None None) /\
  accessToken (AuthContext.silent_reauth (Some (mkResponse 200 OtherBody)) (init None)) = None /\
  user (AuthContext.silent_reauth (Some (mkResponse 200 NullBody)) (init None)) = None.
Proof.
  pose proof (silent_reauth_outcome (Some (mkResponse 200 OtherBody)) (init None)) as H.
  pose proof (silent_reauth_outcome (Some (mkResponse 200 NullBody)) (init None)) as H'.
  cbv zeta in H, H'. destruct H as (_ & _ & _ & _ & H1 & H2).
  destruct H' as (_ & _ & _ & _ & _ & H3).
  split; [exact H2|]. split; [exact H1 | exact H3].
Defined.

(** X13. The auth guard of the dashboard and the dataset page leaves the
    location alone while the auth context is loading and whenever a user
    is set. After a silent re-authentication that failed, or whose 2xx
    answer had the body [null], it sends the browser to /login; after one
    whose 2xx answer had another body it does nothing. *)
Theorem guard_after_reauth (r : reply) (s : client) :
  (authLoading s = true -> AuthContext.redirect_if_unauthenticated s = s) /\
  (AuthContext.isAuthenticated s = true -> AuthContext.redirect_if_unauthenticated s = s) /\
  (ok r = None \/ (exists resp, ok r = Some resp /\ is_null (rdata resp) = true) ->
     pathname (AuthContext.redirect_if_unauthenticated (AuthContext.silent_reauth r s))
       = Some (js "/login")) /\
  (forall resp, ok r = Some resp -> is_null (rdata resp) = false ->
     AuthContext.redirect_if_unauthenticated (AuthContext.silent_reauth r s)
       = AuthContext.silent_reauth r s).
Proof.
  pose proof (silent_reauth_facts r s) as H. cbv zeta in H.
  destruct H as (Hl & _ & _ & _ & H).
  unfold AuthContext.redirect_if_unauthenticated, AuthContext.isAuthenticated.
  repeat split.
  - intros ->. reflexivity.
  - destruct (user s); [|discriminate]. intros _. now rewrite andb_false_r.
  - intros [Hok|(resp & Hok & Hn)]; rewrite Hok in H; [|rewrite Hn in H];
      destruct H as [_ Hu]; rewrite Hl, Hu; reflexivity.
  - intros resp Hok Hn. rewrite Hok, Hn in H. destruct H as [_ Hu]. rewrite Hl, Hu.
    reflexivity.
Qed.

Lemma guard_after_reauth_witness :
  pathname (AuthContext.redirect_if_unauthenticated
              (AuthContext.silent_reauth Examples.unauthorized (init (Some (js "/dashboard")))))
    = Some (js "/login") /\
  pathname (AuthContext.redirect_if_unauthenticated
              (AuthContext.silent_reauth (Some (mkResponse 200 NullBody))
                 (init (Some (js "/dashboard")))))
    = Some (js "/login").
Proof.
  split.
  - destruct (guard_after_reauth Examples.unauthorized (init (Some (js "/dashboard"))))
      as (_ & _ & H & _).
    apply H. left. reflexivity.
  - destruct (guard_after_reauth (Some (mkResponse 200 NullBody))
                (init (Some (js "/dashboard"))))
      as (_ & _ & H & _).
    apply H. right. eexists. split; reflexivity.
Defined.

(** X14. Logging out from the dashboard sends one POST /auth/logout, still
    carrying the current token, and waits for its answer; until then the
    session is untouched. Whatever the answer, an error or no response
    included, the token and the user are then cleared and the page moves
    to /login; a 401 on the logout call causes no refresh call. *)
Theorem logout_flow_clears (r : reply) (c : client) :
  let c' := Dashboard.logout_flow r c in
  accessToken (Dashboard.handleLogout c) = accessToken c /\
  user (Dashboard.handleLogout c) = user c /\
  accessToken c' = None /\ user c' = None /\
  pathname c' = Some (js "/login") /\
  wire_log c' =
    ApiRequest (next_id c)
      (request_interceptor (accessToken c)
         (Traffic.plain_config POST (js "/auth/logout") []))
    :: wire_log c /\
  refresh_calls c' = refresh_calls c /\
  pending c' !! next_id c = None.
Proof.
  cbv zeta. unfold Dashboard.logout_flow, Dashboard.handleLogout, logout.
  destruct (auth_call_settles c POST (js "/auth/logout") [] r eq_refl)
    as (Hw & Hpend & _ & _ & _ & _ & _ & Hs).
  cbv zeta in *. rewrite Hs. unfold refresh_calls, Dashboard.handleLogout_resume.
  set (c2 := step (Response (next_id c) r) (step (Call POST (js "/auth/logout") []) c)) in *.
  change (step Logout c2) with (setUser None (setAccessToken None c2)).
  cbn [setUser setAccessToken set_pathname accessToken user pathname wire_log pending].
  rewrite Hw, Hpend. repeat split.
Qed.

Lemma logout_flow_clears_witness :
  accessToken (Dashboard.logout_flow None Examples.logged_in) = None /\
  pathname (Dashboard.logout_flow None Examples.logged_in) = Some (js "/login").
Proof.
  pose proof (logout_flow_clears None Examples.logged_in) as H.
  cbv zeta in H. destruct H as (_ & _ & H1 & _ & H2 & _). split; [exact H1 | exact H2].
Defined.

Lemma endsWith_spec (s suffix : jsstring) :
  JSMore.endsWith s suffix = true <-> exists p, s = p ++ suffix.
Proof.
  unfold JSMore.endsWith. rewrite andb_true_iff, Nat.leb_le, jsstring_eqb_eq. split.
  - intros [Hle Hs]. exists (take (length s - length suffix) s).
    rewrite <- (take_drop (length s - length suffix) s) at 1. now rewrite Hs.
  - intros [p ->]. rewrite length_app. split; [lia|].
    replace (length p + length suffix - length suffix) with (length p) by lia.
    apply drop_app_length.
Qed.

(** X15. Choosing a file on the dashboard uploads it only if it is at most
    10 * 1024 * 1024 bytes large and its name ends in ".csv" (in lower
    case). Otherwise no request is made and only the upload error
    changes, to a non-empty message; with no file chosen nothing changes
    at all. An accepted file, one of exactly 10485760 bytes included,
    makes one POST /datasets, with uploading on and the upload error
    cleared. *)
Theorem file_select_validates (megabytes : N -> jsstring) (d : Dashboard.page) (c : client) :
  Dashboard.handleFileSelect megabytes None d c = (d, c) /\
  (forall f,
     (10485760 < Dashboard.file_size f)%N \/
     ~ (exists p, Dashboard.file_name f = p ++ js ".csv") ->
     exists msg, msg <> [] /\
       Dashboard.handleFileSelect megabytes (Some f) d c = (Dashboard.setUploadError msg d, c)) /\
  (forall f p,
     (Dashboard.file_size f <= 10485760)%N ->
     Dashboard.file_name f = p ++ js ".csv" ->
     Dashboard.handleFileSelect megabytes (Some f) d c =
       (Dashboard.setUploadError [] (Dashboard.setIsUploading true d),
        step (Dashboard.uploadDataset f) c) /\
     wire_log (Dashboard.handleFileSelect megabytes (Some f) d c).2 =
       ApiRequest (next_id c)
         (request_interceptor (accessToken c)
            (Traffic.plain_config POST (js "/datasets")
               [("file"%string, Dashboard.file_name f)]))
       :: wire_log c).
Proof.
  split; [reflexivity|]. split.
  - intros f H. unfold Dashboard.handleFileSelect.
    change Dashboard.maxSize with 10485760%N.
    destruct (N.ltb_spec 10485760 (Dashboard.file_size f)) as [Hbig|Hsmall].
    + eexists. split; [|reflexivity]. discriminate.
    + destruct H as [H|H]; [lia|].
      destruct (JSMore.endsWith (Dashboard.file_name f) (js ".csv")) eqn:E.
      * exfalso. apply H. now apply endsWith_spec.
      * cbn [negb]. eexists. split; [|reflexivity]. discriminate.
  - intros f p Hsize Hname. unfold Dashboard.handleFileSelect.
    change Dashboard.maxSize with 10485760%N.
    destruct (N.ltb_spec 10485760 (Dashboard.file_size f)) as [Hbig|Hsmall]; [lia|].
    replace (JSMore.endsWith (Dashboard.file_name f) (js ".csv")) with true
      by (symmetry; apply endsWith_spec; eauto).
    cbn [negb]. split; reflexivity.
Qed.

Lemma file_select_validates_witness :
  let f := Dashboard.mkFile (js "DATA.CSV") 100 in
  let d := Dashboard.mkPage [] false false [] [] (js "DATA.CSV") in
  exists msg, msg <> [] /\
    Dashboard.handleFileSelect (fun _ => js "0.00") (Some f) d Examples.logged_in
      = (Dashboard.setUploadError msg d, Examples.logged_in).
Proof.
  cbv zeta.
  destruct (file_select_validates (fun _ => js "0.00")
              (Dashboard.mkPage [] false false [] [] (js "DATA.CSV")) Examples.logged_in)
    as (_ & H & _).
  apply (H (Dashboard.mkFile (js "DATA.CSV") 100)). right.
  intros [p Hp]. apply (f_equal (@rev _)) in Hp. rewrite rev_app_distr in Hp.
  vm_compute in Hp. discriminate.
Defined.

Lemma request_interceptor_data t c : data (request_interceptor t c) = data c.
Proof. unfold request_interceptor. now destruct (truthy t). Qed.

Lemma nonempty_spec (s : jsstring) : JSMore.nonempty s = false <-> s = [].
Proof. destruct s; cbn; split; congruence. Qed.

(** X16. The Aggregate action of the dataset page makes no request and
    changes nothing when the group-by column or the metric is empty or the
    route has no (or an empty) dataset id. With all three present it turns
    aggregating on and sends one POST /datasets/<id>/aggregate naming that
    group-by column and that one metric. *)
Theorem aggregation_requires_selection (v : DatasetView.view) (c : client) :
  (DatasetView.groupBy v = [] \/ DatasetView.selectedMetric v = [] \/
   DatasetView.query_id v = None \/ DatasetView.query_id v = Some [] ->
   DatasetView.fetchAggregation v c = (v, c)) /\
  (forall i, DatasetView.query_id v = Some i -> i <> [] ->
     DatasetView.groupBy v <> [] -> DatasetView.selectedMetric v <> [] ->
     DatasetView.fetchAggregation v c =
       (DatasetView.setIsAggregating true v,
        step (Call POST (js "/datasets/" ++ i ++ js "/aggregate")
                [("group_by"%string, DatasetView.groupBy v);
                 ("metrics[0]"%string, DatasetView.selectedMetric v)]) c)).
Proof.
  unfold DatasetView.fetchAggregation. split.
  - intros [H|[H|[H|H]]]; rewrite H; try reflexivity.
    + destruct (DatasetView.query_id v); reflexivity.
    + destruct (DatasetView.query_id v); [|reflexivity].
      cbn. now rewrite andb_false_r.
    + cbn. now rewrite andb_false_r.
  - intros i -> Hi Hg Hm.
    destruct i, (DatasetView.groupBy v), (DatasetView.selectedMetric v); try congruence.
    reflexivity.
Qed.

Lemma aggregation_requires_selection_witness :
  DatasetView.fetchAggregation (DatasetView.initial (Some (js "42"))) Examples.logged_in
    = (DatasetView.initial (Some (js "42")), Examples.logged_in).
Proof.
  apply (aggregation_requires_selection (DatasetView.initial (Some (js "42")))
           Examples.logged_in).
  left. reflexivity.
Defined.

Lemma filter_head_split {A} (p : A -> bool) (l : list A) x rest :
  List.filter p l = x :: rest ->
  exists pre post, l = pre ++ x :: post /\ p x = true /\
                   Forall (fun y => p y = false) pre.
Proof.
  induction l as [|a l IH]; cbn; [discriminate|].
  destruct (p a) eqn:Ha.
  - intros [= -> <-]. exists [], l. repeat split; [assumption|constructor].
  - intros H. destruct (IH H) as (pre & post & -> & Hx & Hpre).
    exists (a :: pre), post. repeat split; [assumption|]. now constructor.
Qed.

Lemma filter_nil_all_false {A} (p : A -> bool) (l : list A) :
  (forall y, In y l -> p y = false) -> List.filter p l = [].
Proof.
  induction l as [|a l IH]; cbn; [reflexivity|]. intros H.
  rewrite (H a) by now left. apply IH. intros y Hy. apply H. now right.
Qed.

(** X17. After a dataset has loaded, the page shows it, loading is off,
    and the group-by column is the name of the first column, in the
    dataset's order, whose type is "categorical"; the metric is the name
    of the first whose type is "continuous". When the dataset has no
    column of a kind, that selection stays as it was, so on a freshly
    opened page the Aggregate action then makes no request. *)
Theorem default_selection (ds : DatasetView.Dataset) (v : DatasetView.view) (c : client) :
  let v' := DatasetView.fetchDataset_resume (inl ds) v in
  let typed t := fun col => DatasetView.col_type col = js t in
  DatasetView.dataset v' = Some ds /\ DatasetView.isLoading v' = false /\
  ((forall col, In col (DatasetView.columns ds) -> ~ typed "categorical"%string col) /\
     DatasetView.groupBy v' = DatasetView.groupBy v
   \/ exists pre col post,
        DatasetView.columns ds = pre ++ col :: post /\ typed "categorical"%string col /\
        Forall (fun x => ~ typed "categorical"%string x) pre /\
        DatasetView.groupBy v' = DatasetView.col_name col) /\
  ((forall col, In col (DatasetView.columns ds) -> ~ typed "continuous"%string col) /\
     DatasetView.selectedMetric v' = DatasetView.selectedMetric v
   \/ exists pre col post,
        DatasetView.columns ds = pre ++ col :: post /\ typed "continuous"%string col /\
        Forall (fun x => ~ typed "continuous"%string x) pre /\
        DatasetView.selectedMetric v' = DatasetView.col_name col) /\
  ((forall col, In col (DatasetView.columns ds) -> ~ typed "continuous"%string col) ->
   DatasetView.selectedMetric v = [] ->
   DatasetView.fetchAggregation v' c = (v', c)).
Proof.
  cbv zeta.
  assert (Hkind : forall t,
    (forall col, In col (DatasetView.columns ds) -> DatasetView.col_type col <> js t) /\
      DatasetView.columns_of_type (js t) (DatasetView.columns ds) = []
    \/ exists pre col post rest,
         DatasetView.columns_of_type (js t) (DatasetView.columns ds) = col :: rest /\
         DatasetView.columns ds = pre ++ col :: post /\ DatasetView.col_type col = js t /\
         Forall (fun x => DatasetView.col_type x <> js t) pre).
  { intros t. unfold DatasetView.columns_of_type.
    destruct (List.filter _ (DatasetView.columns ds)) as [|col rest] eqn:E.
    - left. split; [|reflexivity]. intros col Hin Ht.
      assert (Hf : In col (List.filter
                (fun c0 => jsstring_eqb (DatasetView.col_type c0) (js t))
                (DatasetView.columns ds))).
      { apply filter_In. split; [assumption|]. now apply jsstring_eqb_eq. }
      rewrite E in Hf. destruct Hf.
    - right. destruct (filter_head_split _ _ _ _ E) as (pre & post & Hc & Hx & Hpre).
      exists pre, col, post, rest. repeat split; try assumption.
      + now apply jsstring_eqb_eq.
      + eapply Forall_impl; [exact Hpre|]. cbn. intros x Hx' Ht.
        apply jsstring_eqb_eq in Ht. congruence. }
  unfold DatasetView.fetchDataset_resume.
  destruct (Hkind "categorical"%string) as [[Hc Ec]|(pc & cc & qc & rc & Ec & Hc1 & Hc2 & Hc3)];
  destruct (Hkind "continuous"%string) as [[Hm Em]|(pm & cm & qm & rm & Em & Hm1 & Hm2 & Hm3)];
    rewrite Ec, Em; cbn; (split; [reflexivity|]); (split; [reflexivity|]).
  - split; [left; auto|]. split; [left; auto|].
    intros _ Hv. unfold DatasetView.fetchAggregation. cbn. rewrite Hv.
    destruct (DatasetView.query_id v); [|reflexivity]. cbn. now rewrite andb_false_r.
  - split; [left; auto|]. split; [right; eauto 10|].
    intros H. exfalso. apply (H cm); [rewrite Hm1; apply in_elt | assumption].
  - split; [right; eauto 10|]. split; [left; auto|].
    intros _ Hv. unfold DatasetView.fetchAggregation. cbn. rewrite Hv.
    destruct (DatasetView.query_id v); [|reflexivity]. cbn. now rewrite andb_false_r.
  - split; [right; eauto 10|]. split; [right; eauto 10|].
    intros H. exfalso. apply (H cm); [rewrite Hm1; apply in_elt | assumption].
Qed.

Lemma default_selection_witness :
  let ds := DatasetView.mkDataset (js "42") (js "gapminder")
              [DatasetView.mkColumn (js "year") (js "continuous");
               DatasetView.mkColumn (js "country") (js "categorical")] 2 (js "2024") [] in
  let v' := DatasetView.fetchDataset_resume (inl ds) (DatasetView.initial (Some (js "42"))) in
  DatasetView.dataset v' = Some ds /\ DatasetView.isLoading v' = false.
Proof.
  cbv zeta.
  pose proof (default_selection
    (DatasetView.mkDataset (js "42") (js "gapminder")
       [DatasetView.mkColumn (js "year") (js "continuous");
        DatasetView.mkColumn (js "country") (js "categorical")] 2 (js "2024") [])
    (DatasetView.initial (Some (js "42"))) Examples.logged_in) as H.
  cbv zeta in H. destruct H as (H1 & H2 & _). split; [exact H1 | exact H2].
Defined.

(** X18. When the tenant directory has loaded with at least one tenant,
    the form lists all of them in order and selects the first; a valid
    submission then sends that tenant's id. When the directory is empty
    the selection stays as it was, and when loading fails the list and the
    selection stay as they were and an error is shown. *)
Theorem default_tenant_submitted (st : Z) (l : list (jsstring * jsstring))
    (f : RegisterPage.form) (c : client) :
  let f' := RegisterPage.fetchTenants_resume (Resolved (mkResponse st (TenantsBody l))) f in
  RegisterPage.tenants f' = map (fun p => RegisterPage.mkTenant p.1 p.2) l /\
  (l = [] -> RegisterPage.tenantId f' = RegisterPage.tenantId f) /\
  (forall t rest, l = t :: rest ->
     RegisterPage.tenantId f' = t.1 /\
     (RegisterPage.password f = RegisterPage.confirmPassword f ->
      8 <= length (RegisterPage.password f) ->
      exists cfg,
        wire_log (RegisterPage.handleSubmit f' c).2 = ApiRequest (next_id c) cfg :: wire_log c /\
        data cfg = [("email"%string, RegisterPage.email f);
                    ("password"%string, RegisterPage.password f);
                    ("tenant_id"%string, t.1)])) /\
  (forall e, let f'' := RegisterPage.fetchTenants_resume (Rejected e) f in
             RegisterPage.tenants f'' = RegisterPage.tenants f /\
             RegisterPage.tenantId f'' = RegisterPage.tenantId f /\
             RegisterPage.error f'' = js "Failed to load tenants").
Proof.
  cbv zeta. repeat split.
  - destruct l; reflexivity.
  - intros ->. reflexivity.
  - subst l. reflexivity.
  - subst l. intros Heq Hlen.
    pose proof (handleSubmit_sends
                  (RegisterPage.fetchTenants_resume
                     (Resolved (mkResponse st (TenantsBody (t :: rest)))) f) c Heq Hlen) as H.
    eexists. split; [exact H|]. rewrite request_interceptor_data. reflexivity.
Qed.

(* ===================================================================== *)
(** * Further properties of row-level security *)
(* ===================================================================== *)

Lemma existsb_all_false {A} (f : A -> bool) (l : list A) :
  (forall x, In x l -> f x = false) -> existsb f l = false.
Proof.
  intros H. destruct (existsb f l) eqn:E; [|reflexivity].
  apply existsb_exists in E as (x & Hin & Hx). rewrite (H x Hin) in Hx. discriminate.
Qed.

Lemma existsb_false_at {A} (f : A -> bool) (l : list A) x :
  existsb f l = false -> In x l -> f x = false.
Proof.
  intros H Hin. destruct (f x) eqn:E; [|reflexivity].
  assert (existsb f l = true) by (apply existsb_exists; eauto). congruence.
Qed.

Lemma filter_all_true {A} (p : A -> bool) (l : list A) :
  (forall x, In x l -> p x = true) -> List.filter p l = l.
Proof.
  induction l as [|x l IH]; intros H; cbn; [reflexivity|].
  rewrite (H x) by now left. f_equal. apply IH. intros y Hy. apply H. now right.
Qed.

(** A DELETE that removes no row by its own condition removes none. *)
Lemma cascade_no_victim (victim : row -> bool) (db : list row) :
  (forall r, In r db -> victim r = false) -> Schema.cascade victim db = db.
Proof.
  intros Hv.
  assert (HT : forall i, Schema.tenant_dead victim db i = false).
  { intros i. apply existsb_all_false. intros r Hin. destruct r; try reflexivity.
    rewrite (Hv _ Hin). apply andb_false_r. }
  assert (HU : forall i, Schema.user_dead victim db i = false).
  { intros i. apply existsb_all_false. intros r Hin. destruct r; try reflexivity.
    rewrite (Hv _ Hin), HT. apply andb_false_r. }
  assert (HD : forall i, Schema.dataset_dead victim db i = false).
  { intros i. apply existsb_all_false. intros r Hin. destruct r; try reflexivity.
    rewrite (Hv _ Hin), HT, HU. apply andb_false_r. }
  apply filter_all_true. intros r Hin. unfold Schema.dead. rewrite (Hv _ Hin).
  destruct r; cbn; rewrite ?HT, ?HU, ?HD; reflexivity.
Qed.

Lemma select_installed_spec (ctx : TenantContext) (s : session) (t : table)
    (cond : row -> bool) (db : database) :
  installed ctx s ->
  exists rows,
    select t cond s db = Ok rows /\
    forall r, In r rows <->
              In r db /\ table_of r = t /\ cond r = true /\
              match session_role s with
              | Restricted => scope_matches s r
              | Bypassing => True
              end.
Proof.
  intros Hi. unfold select. rewrite (installed_no_early_raise ctx s t Hi).
  destruct (select_rows_spec t cond s db) as (rows & Hs & Hrows).
  { intros r _. now apply (passes_installed ctx). }
  exists rows. split; [exact Hs|]. intros r. rewrite Hrows, passes_iff_scope. reflexivity.
Qed.

(** X19. With a context installed a SELECT never fails. Run by a role
    that is subject to row security it returns every row of the table
    that satisfies the condition and whose tenant_id (for refresh tokens:
    user_id) is the context's: the tenant sees all of its own rows, and
    only those. Run by a role that bypasses row security (the owner of the
    tables, as init.sql does not FORCE it, or a superuser) it returns
    every row of the table that satisfies the condition, of whatever
    tenant. *)
Theorem select_returns_own_rows (ctx : TenantContext) (s : session) (t : table)
    (cond : row -> bool) (db : database) :
  installed ctx s ->
  exists rows,
    select t cond s db = Ok rows /\
    forall r, In r rows <->
              In r db /\ table_of r = t /\ cond r = true /\
              match session_role s with
              | Restricted => scope_matches s r
              | Bypassing => True
              end.
Proof. exact (select_installed_spec ctx s t cond db). Qed.

Lemma select_returns_own_rows_witness :
  (exists rows,
     select users (fun _ => true) (install Examples.alice_context) Examples.two_tenants
       = Ok rows /\
     In (RUser Examples.alice_row) rows /\ ~ In (RUser Examples.bob_row) rows) /\
  (exists rows,
     select users (fun _ => true) Examples.alice_as_owner Examples.two_tenants = Ok rows /\
     In (RUser Examples.bob_row) rows).
Proof.
  split.
  - destruct (select_returns_own_rows Examples.alice_context (install Examples.alice_context)
                users (fun _ => true) Examples.two_tenants) as (rows & Hs & Hrows).
    { split; reflexivity. }
    exists rows. split; [exact Hs|]. split.
    + apply Hrows. split; [vm_compute; right; right; right; left; reflexivity|].
      repeat split.
    + intros H. apply Hrows in H as (_ & _ & _ & H). vm_compute in H. discriminate.
  - destruct (select_returns_own_rows Examples.alice_context Examples.alice_as_owner
                users (fun _ => true) Examples.two_tenants) as (rows & Hs & Hrows).
    { split; reflexivity. }
    exists rows. split; [exact Hs|].
    apply Hrows. split; [vm_compute; right; right; right; right; left; reflexivity|].
    repeat split.
Defined.



Lemma update_rejects (s : session) t cond set (db : list row) x :
  In x db -> table_of x = t -> cond x = true ->
  passes s x = Ok true -> passes s (set x) = Ok false ->
  forall db', update_rows t cond set s db <> Ok db'.
Proof.
  intros Hin Ht Hc Hp Hnew. induction db as [|y db IH]; [destruct Hin|].
  intros db'. cbn [update_rows].
  destruct Hin as [->|Hin].
  - rewrite (proj2 (in_table_true t x) Ht), Hc, Hp. cbn. rewrite Hnew. discriminate.
  - specialize (IH Hin).
    destruct (in_table t y && cond y);
      [destruct (passes s y) as [[]|]; cbn; [destruct (passes s (set y)) as [[]|]; cbn| |]|];
      try discriminate;
      destruct (update_rows t cond set s db) as [rest|e] eqn:E; cbn; try discriminate;
      exfalso; exact (IH rest eq_refl).
Qed.

(** X21. For a role that is subject to row security and a context
    resolved for a user of tenant T1, writes that would place a row with
    another tenant are refused: an INSERT of a row owned by T2 fails with
    a row-security violation before any constraint is looked at, and an
    UPDATE that would turn one of T1's rows into a row the policy does not
    pass does not succeed. The database is left as it was, since the
    statement fails as a whole. *)
Theorem cross_tenant_write_refused
    (db : database) (uid : uuid) (ctx : TenantContext) (s : session) :
  session_role s = Restricted ->
  installed ctx s ->
  resolved_for db uid ctx ->
  (forall r t2, owner_tenant db r = Some t2 -> t2 <> ctx_tenant_id ctx ->
                Schema.insert_checked r s db = inl (Schema.policy row_security_violation)) /\
  (forall t cond set x,
     In x db -> table_of x = t -> scope_matches s x -> cond x = true ->
     row_security (table_of (set x)) = true -> ~ scope_matches s (set x) ->
     forall db', update t cond set s db <> Ok db').
Proof.
  intros Hro Hi Hres. split.
  - intros r t2 Ho Hne. unfold Schema.insert_checked, insert_policy.
    rewrite (cross_tenant_fails s db uid ctx r t2 Hro Hi Hres Ho Hne). reflexivity.
  - intros t cond set x Hin Ht Hm Hc Hrls Hnm.
    assert (Hnew : passes s (set x) = Ok false).
    { destruct (passes_installed ctx s (set x) Hi) as [H|H]; [|exact H].
      exfalso. apply Hnm. now apply passes_scope. }
    pose proof (update_rejects s t cond set db x Hin Ht Hc (scope_passes s x Hm) Hnew) as Hno.
    intros db'. unfold update. rewrite (installed_no_early_raise ctx s t Hi).
    apply Hno.
Qed.

Lemma cross_tenant_write_refused_witness :
  Schema.insert_checked (RDataset Examples.bob_dataset) (install Examples.alice_context)
    Examples.two_tenants
    = inl (Schema.policy row_security_violation).
Proof.
  destruct (cross_tenant_write_refused Examples.two_tenants Examples.alice_id
              Examples.alice_context (install Examples.alice_context)) as [H _].
  - reflexivity.
  - split; reflexivity.
  - split; reflexivity.
  - apply (H (RDataset Examples.bob_dataset) globex); [reflexivity | discriminate].
Defined.

Lemma targets_none_selected t cond s (db : list row) :
  existsb (fun r => in_table t r && cond r) db = false ->
  forall r, In r db -> Schema.targets t cond s r = false.
Proof.
  intros H r Hin. unfold Schema.targets.
  now rewrite (existsb_false_at _ _ _ H Hin).
Qed.

(** X22. A role that is subject to row security runs a statement on a
    protected table while the setting its policy reads holds a text that
    is no uuid (the empty text included). Every INSERT fails with an
    invalid-text error. A SELECT, UPDATE or DELETE fails with that error
    when its condition selects at least one stored row of the table, and
    also, if its plan evaluates the cast whatever rows are selected (before
    the scan, or before the condition is tested), when it selects none;
    under a plan that evaluates the cast only for selected rows, a
    statement that selects no stored row returns nothing and changes
    nothing. *)
Theorem malformed_setting_raises (s : session) (t : table) (b : bool) (db : database) :
  session_role s = Restricted ->
  policy_setting t s = Some (Malformed b) ->
  (forall r, table_of r = t ->
     Schema.insert_checked r s db = inl (Schema.policy invalid_text_representation)) /\
  (forall cond set,
     let hit := b || existsb (fun r => in_table t r && cond r) db in
     select t cond s db = (if hit then Err invalid_text_representation else Ok []) /\
     Schema.delete_cascading t cond s db
       = (if hit then Err invalid_text_representation else Ok db) /\
     update t cond set s db = (if hit then Err invalid_text_representation else Ok db)).
Proof.
  intros Hro Hset. split.
  - intros r <-. unfold Schema.insert_checked, insert_policy.
    rewrite (malformed_fails s r b Hro Hset). reflexivity.
  - intros cond set.
    destruct (malformed_statements s t b db cond set Hro Hset) as (H1 & H2 & H3).
    cbv zeta in *. split; [exact H1|]. split; [|exact H3].
    unfold Schema.delete_cascading. rewrite H2.
    destruct b; [reflexivity|]. cbn [orb] in *.
    destruct (existsb (fun r => in_table t r && cond r) db) eqn:E; [reflexivity|].
    rewrite cascade_no_victim; [reflexivity|]. now apply targets_none_selected.
Qed.

Lemma malformed_setting_raises_witness :
  select users (fun _ => true) Examples.stale_setting Examples.two_tenants
    = Err invalid_text_representation /\
  select users (fun _ => false) Examples.stale_setting Examples.two_tenants = Ok [].
Proof.
  destruct (malformed_setting_raises Examples.stale_setting users false Examples.two_tenants
              eq_refl eq_refl) as [_ H].
  split.
  - exact (proj1 (H (fun _ => true) (fun r => r))).
  - exact (proj1 (H (fun _ => false) (fun r => r))).
Defined.

(* ===================================================================== *)
(** * Properties of the constraints and cascades *)
(* ===================================================================== *)

Section SchemaFacts.
Import Schema.

Lemma has_row_In t i (db : list row) : has_row t i db = true <-> In i (keys t db).
Proof.
  unfold has_row. rewrite existsb_exists. split.
  - intros (x & Hin & Heq). apply String.eqb_eq in Heq. now subst.
  - intros Hin. exists i. split; [assumption|apply String.eqb_refl].
Qed.

Lemma has_row_exists t i (db : list row) :
  has_row t i db = true <-> exists r, In r db /\ table_of r = t /\ id_of r = i.
Proof.
  rewrite has_row_In. unfold keys. rewrite in_map_iff. split.
  - intros (r & Hid & Hin). apply filter_In in Hin as [Hin Ht].
    unfold in_table in Ht. apply bool_decide_eq_true in Ht. eauto.
  - intros (r & Hin & Ht & Hid). exists r. split; [assumption|].
    apply filter_In. split; [assumption|]. unfold in_table. now apply bool_decide_eq_true.
Qed.

Lemma keys_snoc t (db : list row) r :
  keys t (db ++ [r]) = keys t db ++ (if in_table t r then [id_of r] else []).
Proof.
  unfold keys. rewrite List.filter_app, map_app. cbn. now destruct (in_table t r).
Qed.

Lemma unique_values_snoc t (db : list row) r :
  unique_values t (db ++ [r]) =
  unique_values t db ++
  (if in_table t r then match unique_value r with Some v => [v] | None => [] end else []).
Proof.
  unfold unique_values. rewrite List.filter_app, omap_app. cbn.
  destruct (in_table t r); cbn; [|reflexivity]. now destruct (unique_value r).
Qed.

Lemma nodup_append_one {A} (l : list A) x : NoDup l -> ~ In x l -> NoDup (l ++ [x]).
Proof.
  intros Hl Hx. apply NoDup_app. split; [assumption|]. split.
  - intros y Hy Hy'. apply list_elem_of_In in Hy. apply list_elem_of_In in Hy'.
    destruct Hy' as [<-|[]]. contradiction.
  - apply NoDup_singleton.
Qed.

Lemma existsb_eqb_false v (l : list string) :
  existsb (String.eqb v) l = false -> ~ In v l.
Proof.
  intros H Hin. assert (existsb (String.eqb v) l = true); [|congruence].
  apply existsb_exists. exists v. split; [assumption|apply String.eqb_refl].
Qed.

Lemma references_ok_mono (db l : list row) r :
  references_ok db r = true -> references_ok (db ++ l) r = true.
Proof.
  unfold references_ok. rewrite !forallb_forall. intros H p Hp.
  specialize (H p Hp). apply has_row_exists in H as (x & Hin & Ht & Hid).
  apply has_row_exists. exists x. split; [apply in_or_app; now left|auto].
Qed.

(** X23. An INSERT that gets past the policy, the unique indexes and the
    foreign keys appends the row and keeps the database consistent:
    primary keys and the unique columns (tenant name, user e-mail, token
    hash) stay free of duplicates and every foreign key still points to an
    existing row. *)
Theorem insert_checked_keeps_consistency (r : row) (s : session) (db db' : database) :
  consistent db ->
  insert_checked r s db = inr db' ->
  db' = db ++ [r] /\ passes s r = Ok true /\ consistent db'.
Proof.
  intros (Hk & Hu & Hf). unfold insert_checked.
  destruct (insert_policy r s db) as [db1|e] eqn:Hi; [|discriminate].
  apply insert_sound in Hi as [Hp ->].
  destruct (has_row (table_of r) (id_of r) db) eqn:Hpk; [discriminate|].
  destruct (unique_taken r db) eqn:Hut; [discriminate|].
  destruct (references_ok db r) eqn:Hro; [|discriminate].
  cbn. intros [= <-]. split; [reflexivity|]. split; [assumption|]. repeat split.
  - intros t. rewrite keys_snoc. unfold in_table. case_bool_decide as Ht.
    + apply nodup_append_one; [apply Hk|]. subst t. intros Hin.
      apply has_row_In in Hin. congruence.
    + rewrite app_nil_r. apply Hk.
  - intros t. rewrite unique_values_snoc. unfold in_table. case_bool_decide as Ht.
    + unfold unique_taken in Hut. destruct (unique_value r) as [v|].
      * apply nodup_append_one; [apply Hu|]. subst t. now apply existsb_eqb_false.
      * rewrite app_nil_r. apply Hu.
    + rewrite app_nil_r. apply Hu.
  - intros x Hin. apply in_app_or in Hin as [Hin|[<-|[]]].
    + apply references_ok_mono. now apply Hf.
    + now apply references_ok_mono.
Qed.

Lemma seed_consistent : consistent seed.
Proof.
  repeat split.
  - intros t. destruct t; apply (bool_decide_unpack _); vm_compute; exact I.
  - intros t. destruct t; apply (bool_decide_unpack _); vm_compute; exact I.
  - intros r [<-|[<-|[<-|[]]]]; reflexivity.
Qed.

End SchemaFacts.

Lemma insert_checked_keeps_consistency_witness :
  Schema.insert_checked (RUser Examples.alice_row) (install Examples.alice_context) seed
    = inr (seed ++ [RUser Examples.alice_row]) /\
  Schema.consistent (seed ++ [RUser Examples.alice_row]).
Proof.
  split; [reflexivity|].
  apply (insert_checked_keeps_consistency (RUser Examples.alice_row)
           (install Examples.alice_context) seed).
  - apply seed_consistent.
  - reflexivity.
Defined.

(** X24. E-mail addresses are unique across all tenants: under any
    context, inserting a user of the context's own tenant whose e-mail is
    already held by some user row, of whatever tenant and whether or not
    the context can see it, fails with a unique violation. *)
Theorem email_unique_across_tenants (ctx : TenantContext) (u u' : users_row) (db : database) :
  u_tenant_id u = ctx_tenant_id ctx ->
  In (RUser u') db ->
  u_email u' = u_email u ->
  Schema.insert_checked (RUser u) (install ctx) db = inl Schema.unique_violation.
Proof.
  intros Ht Hin He. unfold Schema.insert_checked, insert_policy.
  rewrite (scope_passes (install ctx) (RUser u)) by (cbn; now rewrite Ht).
  cbn [mbind result_bind].
  assert (Hut : Schema.unique_taken (RUser u) db = true).
  { unfold Schema.unique_taken. cbn [Schema.unique_value table_of].
    apply existsb_exists. exists (u_email u). split; [|apply String.eqb_refl].
    unfold Schema.unique_values. apply list_elem_of_In, list_elem_of_omap.
    exists (RUser u'). split; [|cbn; now rewrite He].
    apply list_elem_of_In, filter_In. split; [assumption|reflexivity]. }
  rewrite Hut, orb_true_r. reflexivity.
Qed.

Lemma email_unique_across_tenants_witness :
  Schema.insert_checked
    (RUser (mkUserRow Examples.carol_id acme "b@globex.com" "hash-n" 0))
    (install Examples.alice_context) Examples.two_tenants
  = inl Schema.unique_violation /\
  passes (install Examples.alice_context) (RUser Examples.bob_row) = Ok false.
Proof.
  split; [|reflexivity].
  apply (email_unique_across_tenants Examples.alice_context
           (mkUserRow Examples.carol_id acme "b@globex.com" "hash-n" 0) Examples.bob_row
           Examples.two_tenants).
  - reflexivity.
  - vm_compute. right. right. right. right. left. reflexivity.
  - reflexivity.
Defined.

Section CascadeFacts.
Import Schema.

Variable victim : row -> bool.
Variable db : list row.

Lemma tenant_survives t :
  In (RTenant t) db -> tenant_dead victim db (t_id t) = false ->
  dead victim db (RTenant t) = false.
Proof.
  intros Hin Hd. pose proof (existsb_false_at _ _ _ Hd Hin) as H. cbn in H.
  rewrite String.eqb_refl in H. cbn in H. unfold dead. now rewrite H.
Qed.

Lemma user_survives u :
  In (RUser u) db -> user_dead victim db (u_id u) = false ->
  dead victim db (RUser u) = false.
Proof.
  intros Hin Hd. pose proof (existsb_false_at _ _ _ Hd Hin) as H. cbn in H.
  rewrite String.eqb_refl in H. exact H.
Qed.

Lemma dataset_survives d :
  In (RDataset d) db -> dataset_dead victim db (d_id d) = false ->
  dead victim db (RDataset d) = false.
Proof.
  intros Hin Hd. pose proof (existsb_false_at _ _ _ Hd Hin) as H. cbn in H.
  rewrite String.eqb_refl in H. cbn in H. unfold dead. now rewrite orb_assoc.
Qed.

Lemma in_cascade r : In r (cascade victim db) <-> In r db /\ dead victim db r = false.
Proof. unfold cascade. rewrite filter_In, negb_true_iff. reflexivity. Qed.

(** A referenced row that is not reached by the cascade is still there. *)
Lemma parent_survives t i :
  has_row t i db = true ->
  match t with
  | tenants => tenant_dead victim db i = false
  | users => user_dead victim db i = false
  | datasets => dataset_dead victim db i = false
  | _ => False
  end ->
  has_row t i (cascade victim db) = true.
Proof.
  intros Hrow Hd. apply has_row_exists in Hrow as (r & Hin & Ht & Hid).
  apply has_row_exists. exists r. split; [|auto]. apply in_cascade. split; [assumption|].
  destruct r as [x|x|x|x|x]; cbn in Ht, Hid; subst t i; try contradiction.
  - now apply tenant_survives.
  - now apply user_survives.
  - now apply dataset_survives.
Qed.

Lemma NoDup_map_filter {A B} (f : A -> B) (p : A -> bool) (l : list A) :
  NoDup (map f l) -> NoDup (map f (List.filter p l)).
Proof.
  induction l as [|x l IH]; cbn; [auto|]. rewrite NoDup_cons. intros [Hx Hl].
  destruct (p x); cbn; [|auto]. apply NoDup_cons. split; [|auto].
  intros Hin. apply Hx. apply list_elem_of_In in Hin. apply list_elem_of_In.
  apply in_map_iff in Hin as (y & Hy & Hin). apply filter_In in Hin as [Hin _].
  apply in_map_iff. eauto.
Qed.

Lemma NoDup_omap_filter {A B} (f : A -> option B) (p : A -> bool) (l : list A) :
  NoDup (omap f l) -> NoDup (omap f (List.filter p l)).
Proof.
  induction l as [|x l IH]; cbn; [auto|].
  destruct (p x); cbn; destruct (f x) as [y|]; try rewrite !NoDup_cons; auto.
  - intros [Hx Hl]. split; [|auto]. intros Hin. apply Hx.
    apply list_elem_of_omap in Hin as (z & Hz & Hfz). apply list_elem_of_omap.
    exists z. split; [|assumption]. apply list_elem_of_In.
    apply list_elem_of_In, filter_In in Hz. tauto.
  - intros [_ Hl]. auto.
Qed.

Lemma list_filter_swap {A} (p q : A -> bool) (l : list A) :
  List.filter p (List.filter q l) = List.filter q (List.filter p l).
Proof.
  induction l as [|x l IH]; cbn; [reflexivity|].
  destruct (q x) eqn:Hq, (p x) eqn:Hp; cbn; rewrite ?Hq, ?Hp, IH; reflexivity.
Qed.

Lemma cascade_consistent : consistent db -> consistent (cascade victim db).
Proof.
  intros (Hk & Hu & Hf). repeat split.
  - intros t. unfold keys, cascade. rewrite list_filter_swap. apply NoDup_map_filter, Hk.
  - intros t. unfold unique_values, cascade. rewrite list_filter_swap.
    apply NoDup_omap_filter, Hu.
  - intros r Hr. apply in_cascade in Hr as [Hin Hd]. specialize (Hf r Hin).
    unfold references_ok in *. rewrite forallb_forall in *. intros p Hp.
    specialize (Hf p Hp). apply parent_survives; [assumption|].
    unfold dead in Hd. apply orb_false_iff in Hd as [_ Hd].
    destruct r as [x|x|x|x|x]; cbn in Hp.
    + destruct Hp.
    + destruct Hp as [<-|[]]. exact Hd.
    + destruct Hp as [<-|[]]. exact Hd.
    + apply orb_false_iff in Hd as [Hd1 Hd2]. destruct Hp as [<-|[<-|[]]]; assumption.
    + apply orb_false_iff in Hd as [Hd1 Hd2]. destruct Hp as [<-|[<-|[]]]; assumption.
Qed.

End CascadeFacts.

Lemma delete_targets_tenants_ok (cond : row -> bool) (s : session) (db : database) :
  exists db1, delete_targets tenants cond s db = Ok db1.
Proof.
  unfold delete_targets, raises_eagerly. cbn [policy_setting].
  replace (match session_role s with Bypassing | Restricted => false end) with false
    by now destruct (session_role s).
  induction db as [|x db [db1 IH]]; [eexists; reflexivity|].
  cbn [delete_rows]. destruct (in_table tenants x && cond x) eqn:Hx.
  - apply andb_true_iff in Hx as [Hx _]. apply in_table_true in Hx.
    rewrite passes_unprotected by (rewrite Hx; reflexivity). rewrite IH. cbn. eauto.
  - rewrite IH. cbn. eauto.
Qed.

Lemma user_tenant_In (db : database) i t :
  user_tenant db i = Some t ->
  exists u, In (RUser u) db /\ u_id u = i /\ u_tenant_id u = t.
Proof.
  induction db as [|x db IH]; cbn; [discriminate|].
  destruct x as [y|y|y|y|y]; try (intros H; destruct (IH H) as (u & ? & ? & ?); eauto 6).
  destruct (String.eqb_spec (u_id y) i).
  - intros [= <-]. eauto 6.
  - intros H; destruct (IH H) as (u & ? & ? & ?); eauto 6.
Qed.

(** X25. A DELETE with its cascades keeps the database consistent: where
    the statement succeeds, the result holds only rows of the old
    database, none of the rows deleted directly, no duplicate keys, and no
    row whose foreign key points to a row that is gone. *)
Theorem delete_cascading_keeps_consistency
    (t : table) (cond : row -> bool) (s : session) (db db' : database) :
  Schema.consistent db ->
  Schema.delete_cascading t cond s db = Ok db' ->
  Schema.consistent db' /\
  (forall r, In r db' -> In r db) /\
  (forall r, In r db -> table_of r = t -> cond r = true -> passes s r = Ok true ->
             ~ In r db').
Proof.
  intros Hc. unfold Schema.delete_cascading.
  destruct (delete_targets t cond s db) as [db1|e]; [|discriminate].
  intros [= <-]. split; [now apply cascade_consistent|]. split.
  - intros r Hr. now apply in_cascade in Hr.
  - intros r Hin Ht Hcond Hp Hr. apply in_cascade in Hr as [_ Hd].
    unfold Schema.dead, Schema.targets, in_table in Hd.
    rewrite bool_decide_eq_true_2, Hcond, Hp in Hd by assumption. discriminate.
Qed.

Lemma delete_cascading_keeps_consistency_witness :
  exists db',
    Schema.delete_cascading tenants (fun r => String.eqb (Schema.id_of r) acme) no_context seed
      = Ok db' /\
    Schema.consistent db'.
Proof.
  eexists. split; [reflexivity|].
  apply (delete_cascading_keeps_consistency tenants
           (fun r => String.eqb (Schema.id_of r) acme) no_context seed).
  - apply seed_consistent.
  - reflexivity.
Defined.

(** X26. The tenants table is under no policy and its deletions cascade:
    under every session, with or without a context, deleting an existing
    tenant succeeds and leaves no tenant with that id, no user, dataset or
    dataset row with that tenant_id, and no refresh token of a user of
    that tenant. *)
Theorem tenant_delete_wipes (T : uuid) (s : session) (db : database) :
  Schema.has_row tenants T db = true ->
  exists db',
    Schema.delete_cascading tenants (fun r => String.eqb (Schema.id_of r) T) s db = Ok db' /\
    forall r, In r db' ->
      (table_of r = tenants -> Schema.id_of r <> T) /\ owner_tenant db r <> Some T.
Proof.
  intros Hrow. unfold Schema.delete_cascading.
  destruct (delete_targets_tenants_ok (fun r => String.eqb (Schema.id_of r) T) s db)
    as [db1 ->].
  eexists. split; [reflexivity|].
  set (victim := Schema.targets tenants (fun r => String.eqb (Schema.id_of r) T) s).
  assert (Hv : forall t, victim (RTenant t) = String.eqb (t_id t) T).
  { intros t. unfold victim, Schema.targets.
    rewrite (passes_unprotected s (RTenant t) eq_refl). cbn. now rewrite andb_true_r. }
  assert (HT : Schema.tenant_dead victim db T = true).
  { apply has_row_exists in Hrow as (r & Hin & Ht & Hid).
    destruct r as [x|x|x|x|x]; cbn in Ht; try discriminate.
    apply existsb_exists. exists (RTenant x). split; [assumption|].
    rewrite Hv. cbn in Hid. rewrite Hid, String.eqb_refl. reflexivity. }
  intros r Hr. apply in_cascade in Hr as [Hin Hd].
  unfold Schema.dead in Hd. apply orb_false_iff in Hd as [Hvr Hd].
  destruct r as [x|x|x|x|x]; cbn [table_of owner_tenant Schema.id_of].
  - split; [|discriminate]. intros _ E. rewrite Hv, E, String.eqb_refl in Hvr.
    discriminate.
  - split; [discriminate|]. intros [= E]. rewrite E in Hd. congruence.
  - split; [discriminate|]. intros E.
    apply user_tenant_In in E as (u & Hu & Hid & Ht).
    pose proof (existsb_false_at _ _ _ Hd Hu) as H. cbn in H.
    rewrite Hid, String.eqb_refl, Ht, HT, orb_true_r in H. discriminate.
  - split; [discriminate|]. intros [= E]. rewrite E, HT in Hd. discriminate.
  - split; [discriminate|]. intros [= E]. rewrite E, HT, orb_true_r in Hd. discriminate.
Qed.

Lemma tenant_delete_wipes_witness :
  exists db',
    Schema.delete_cascading tenants (fun r => String.eqb (Schema.id_of r) globex)
      no_context Examples.two_tenants = Ok db' /\
    ~ In (RDataset Examples.bob_dataset) db' /\
    ~ In (RRefreshToken Examples.bob_token) db'.
Proof.
  destruct (tenant_delete_wipes globex no_context Examples.two_tenants eq_refl)
    as (db' & Hd & H).
  exists db'. split; [exact Hd|]. split; intros Hin; apply H in Hin as [_ Hin];
    apply Hin; reflexivity.
Defined.

(* ===================================================================== *)
(** * Theorems: tenant isolation by row security *)
(* ===================================================================== *)

Lemma targets_passes t cond s r :
  Schema.targets t cond s r = true ->
  table_of r = t /\ cond r = true /\ passes s r = Ok true.
Proof.
  unfold Schema.targets. intros H. apply andb_true_iff in H as [H Hp].
  apply andb_true_iff in H as [Ht Hc]. apply in_table_true in Ht.
  destruct (passes s r) as [[]|]; try discriminate. auto.
Qed.

(** A row goes with a DELETE when the statement removes it directly or
    when a row one of its foreign keys points to goes. *)
Lemma dead_references (victim : row -> bool) (db : list row) (r : row) :
  Schema.dead victim db r =
  victim r || existsb (Schema.reference_dead victim db) (Schema.references r).
Proof.
  unfold Schema.dead. destruct r; cbn; rewrite ?orb_false_r; reflexivity.
Qed.

(** An UPDATE neither brings in nor takes away a row that fails the
    policy. *)
Lemma update_keeps_failing t cond set s (db db' : list row) r :
  update t cond set s db = Ok db' -> passes s r = Ok false ->
  (In r db <-> In r db').
Proof.
  intros Hu Hp. apply update_sound in Hu.
  induction Hu as [|x y l l' Hxy Hu IH]; [reflexivity|].
  cbn. destruct Hxy as [->|(-> & _ & Hx & Hy)]; [now rewrite IH|].
  rewrite IH. split; (intros [E|H]; [|now right]); subst r; congruence.
Qed.

(** C2, as the specification states it, fails. Under the context resolved
    for alice, a user of Acme, and a role that is subject to row security,
    deleting the tenant Globex removes Globex's dataset through
    [ON DELETE CASCADE]: a write to a row of another tenant. And under the
    same context on a connection of the tables' owner, for whom init.sql
    does not force row security, a SELECT returns Globex's dataset. *)
Lemma cascade_deletes_across_tenants :
  resolved_for Examples.two_tenants Examples.alice_id Examples.alice_context /\
  owner_tenant Examples.two_tenants (RDataset Examples.bob_dataset) = Some globex /\
  globex <> ctx_tenant_id Examples.alice_context /\
  (exists db',
     Schema.delete_cascading tenants (fun r => String.eqb (Schema.id_of r) globex)
       (install Examples.alice_context) Examples.two_tenants = Ok db' /\
     In (RDataset Examples.bob_dataset) Examples.two_tenants /\
     ~ In (RDataset Examples.bob_dataset) db') /\
  (exists rows,
     select datasets (fun _ => true) Examples.alice_as_owner Examples.two_tenants = Ok rows /\
     In (RDataset Examples.bob_dataset) rows).
Proof.
  split; [split; reflexivity|]. split; [reflexivity|]. split; [discriminate|]. split.
  - eexists. split; [reflexivity|]. split.
    + vm_compute. do 5 right. left. reflexivity.
    + vm_compute. intros [H|[H|[H|[]]]]; discriminate.
  - eexists. split; [reflexivity|]. left. reflexivity.
Qed.

(** C2 (amended). For a role that is subject to row security, a row of a
    table with row security (users, datasets, dataset_rows,
    refresh_tokens) passes the policy only in a session whose
    [app.current_tenant_id] equals the row's tenant_id (for refresh_tokens:
    whose [app.current_user_id] equals the row's user_id), and the
    statements go through that check: SELECT returns, UPDATE replaces and
    produces, INSERT adds and DELETE removes by its own condition only
    rows that pass; a row that a DELETE removes otherwise has a foreign
    key to a row that the same DELETE removes. Hence with the context
    resolved for a user of tenant T1 installed, a row owned by a tenant
    T2 <> T1 is never returned by a SELECT, never the target of a DELETE,
    never added or taken away by an UPDATE, and its INSERT is refused. *)
Theorem row_security_isolates_tenants (db : database) (s : session) (r : row) :
  session_role s = Restricted ->
  row_security (table_of r) = true ->
  (passes s r = Ok true -> scope_matches s r) /\
  (forall t cond rows, select t cond s db = Ok rows -> In r rows -> scope_matches s r) /\
  (forall t cond db', Schema.delete_cascading t cond s db = Ok db' ->
     In r db -> ~ In r db' ->
     (Schema.targets t cond s r = true /\ scope_matches s r) \/
     (Schema.targets t cond s r = false /\
      exists p, In p (Schema.references r) /\
                Schema.reference_dead (Schema.targets t cond s) db p = true)) /\
  (forall t cond set db', update t cond set s db = Ok db' ->
                      In r db' -> ~ In r db -> scope_matches s r) /\
  (forall t cond set db', update t cond set s db = Ok db' ->
                      In r db -> ~ In r db' -> scope_matches s r) /\
  (forall db', Schema.insert_checked r s db = inr db' -> scope_matches s r) /\
  (forall uid ctx t2, installed ctx s -> resolved_for db uid ctx ->
     owner_tenant db r = Some t2 -> t2 <> ctx_tenant_id ctx ->
     passes s r = Ok false /\
     (forall t cond rows, select t cond s db = Ok rows -> ~ In r rows) /\
     (forall t cond, Schema.targets t cond s r = false) /\
     (forall t cond set db', update t cond set s db = Ok db' -> (In r db <-> In r db')) /\
     Schema.insert_checked r s db = inl (Schema.policy row_security_violation)).
Proof.
  intros Hro Hrls. split; [now apply passes_scope|]. split; [|split; [|split; [|split; [|split]]]].
  - intros t cond rows Hs Hin.
    destruct (select_sound _ _ _ _ _ _ Hs Hin) as (_&_&Hp&_). now apply passes_scope.
  - intros t cond db' Hd Hin Hnot. unfold Schema.delete_cascading in Hd.
    destruct (delete_targets t cond s db); [|discriminate]. injection Hd as <-.
    assert (Hdead : Schema.dead (Schema.targets t cond s) db r = true).
    { destruct (Schema.dead (Schema.targets t cond s) db r) eqn:E; [reflexivity|].
      exfalso. apply Hnot. apply in_cascade. split; assumption. }
    rewrite dead_references in Hdead.
    destruct (Schema.targets t cond s r) eqn:Htg.
    + left. split; [reflexivity|].
      destruct (targets_passes _ _ _ _ Htg) as (_ & _ & Hp). now apply passes_scope.
    + right. split; [reflexivity|]. cbn [orb] in Hdead.
      apply existsb_exists in Hdead as (p & Hp & Hd). eauto.
  - intros t cond set db' Hu Hin Hnot.
    apply passes_scope; try assumption. eapply update_new_passes; eauto.
  - intros t cond set db' Hu Hin Hnot.
    apply passes_scope; try assumption. eapply update_old_passes; eauto.
  - intros db' Hi. unfold Schema.insert_checked in Hi.
    destruct (insert_policy r s db) as [db1|e] eqn:E; [|discriminate].
    apply insert_sound in E as [Hp _]. now apply passes_scope.
  - intros uid ctx t2 Hi Hres Ho Hne.
    pose proof (cross_tenant_fails s db uid ctx r t2 Hro Hi Hres Ho Hne) as Hp.
    split; [exact Hp|]. split; [|split; [|split]].
    + intros t cond rows Hs Hin.
      destruct (select_sound _ _ _ _ _ _ Hs Hin) as (_&_&Hp'&_). congruence.
    + intros t cond. unfold Schema.targets. rewrite Hp. apply andb_false_r.
    + intros t cond set db' Hu. now apply (update_keeps_failing t cond set s).
    + unfold Schema.insert_checked, insert_policy. rewrite Hp. reflexivity.
Qed.

Lemma row_security_isolates_tenants_witness :
  session_role (install Examples.alice_context) = Restricted /\
  row_security (table_of (RDataset Examples.bob_dataset)) = true /\
  passes (install Examples.alice_context) (RDataset Examples.bob_dataset) = Ok false /\
  Schema.insert_checked (RDataset Examples.bob_dataset) (install Examples.alice_context)
    Examples.two_tenants = inl (Schema.policy row_security_violation).
Proof.
  split; [reflexivity|]. split; [reflexivity|].
  destruct (row_security_isolates_tenants Examples.two_tenants (install Examples.alice_context)
              (RDataset Examples.bob_dataset) eq_refl eq_refl) as (_&_&_&_&_&_&H).
  destruct (H Examples.alice_id Examples.alice_context globex) as (H1 & _ & _ & _ & H2).
  - split; reflexivity.
  - split; reflexivity.
  - reflexivity.
  - discriminate.
  - split; [exact H1 | exact H2].
Defined.

(** C5, as the specification states it, fails: on a connection where the
    settings were never made, a SELECT on [users] by a role that is
    subject to row security is not an error, it returns the empty list;
    and run by the owner of the tables it returns the users of every
    tenant. *)
Lemma select_without_context_succeeds :
  select users (fun _ => true) no_context Examples.two_tenants = Ok [] /\
  ~ Spec.fatal (select users (fun _ => true) no_context Examples.two_tenants) /\
  select users (fun _ => true) (mkSession Bypassing Unset Unset) Examples.two_tenants
    = Ok [RUser Examples.alice_row; RUser Examples.bob_row].
Proof.
  split; [reflexivity|]. split; [|reflexivity].
  intros [e He]. vm_compute in He. discriminate.
Qed.

(** C5 (amended). A role that is subject to row security runs a statement
    on a table with row security and no TenantContext is installed. If
    the setting the table's policy reads was never made on the connection,
    so that [current_setting(name, true)] is NULL, the statement does not
    run unscoped and is no error: SELECT returns no row, DELETE and UPDATE
    leave the database as it is, and only INSERT is refused, with a
    row-security violation. If the setting holds a text that is no uuid,
    as the empty text left by an earlier transaction-local context, the
    statement fails with an invalid-text error: every INSERT, and every
    SELECT, DELETE or UPDATE whose condition selects a stored row of the
    table or whose plan evaluates the cast whatever rows are selected. *)
Theorem no_context_sees_nothing (t : table) (s : session) (db : database) :
  session_role s = Restricted ->
  row_security t = true ->
  (policy_setting t s = Some Unset ->
     (forall cond, select t cond s db = Ok []) /\
     (forall cond, Schema.delete_cascading t cond s db = Ok db) /\
     (forall cond set, update t cond set s db = Ok db) /\
     (forall r, table_of r = t ->
        Schema.insert_checked r s db = inl (Schema.policy row_security_violation))) /\
  (forall b, policy_setting t s = Some (Malformed b) ->
     (forall r, table_of r = t ->
        Schema.insert_checked r s db = inl (Schema.policy invalid_text_representation)) /\
     (forall cond set,
        b = true \/ (exists r, In r db /\ table_of r = t /\ cond r = true) ->
        select t cond s db = Err invalid_text_representation /\
        Schema.delete_cascading t cond s db = Err invalid_text_representation /\
        update t cond set s db = Err invalid_text_representation)).
Proof.
  intros Hro Hrls. split.
  - intros Hset. split; [|split; [|split]].
    + intros cond. now apply select_unset.
    + intros cond. unfold Schema.delete_cascading. rewrite delete_unset by assumption.
      rewrite cascade_no_victim; [reflexivity|].
      intros r _. unfold Schema.targets.
      destruct (in_table t r) eqn:Ht; [|reflexivity]. apply in_table_true in Ht.
      rewrite (unset_fails s r Hro) by (rewrite Ht; assumption). apply andb_false_r.
    + intros cond set. now apply update_unset.
    + intros r <-. unfold Schema.insert_checked, insert_policy.
      rewrite (unset_fails s r Hro Hset). reflexivity.
  - intros b Hset. split.
    + intros r <-. unfold Schema.insert_checked, insert_policy.
      rewrite (malformed_fails s r b Hro Hset). reflexivity.
    + intros cond set Hhit.
      destruct (malformed_statements s t b db cond set Hro Hset) as (H1 & H2 & H3).
      cbv zeta in *.
      assert (E : b || existsb (fun r => in_table t r && cond r) db = true).
      { destruct Hhit as [->|(r & Hin & Ht & Hc)]; [reflexivity|].
        apply orb_true_iff. right. apply existsb_exists. exists r. split; [assumption|].
        now rewrite (proj2 (in_table_true t r) Ht), Hc. }
      rewrite E in H1, H2, H3. split; [exact H1|]. split; [|exact H3].
      unfold Schema.delete_cascading. now rewrite H2.
Qed.

Lemma no_context_sees_nothing_witness :
  select users (fun _ => true) no_context Examples.two_tenants = Ok [] /\
  Schema.insert_checked (RUser Examples.alice_row) no_context Examples.two_tenants
    = inl (Schema.policy row_security_violation) /\
  select users (fun _ => true) Examples.stale_setting Examples.two_tenants
    = Err invalid_text_representation.
Proof.
  destruct (no_context_sees_nothing users no_context Examples.two_tenants eq_refl eq_refl)
    as [H _].
  destruct (H eq_refl) as (Hs & _ & _ & Hi).
  destruct (no_context_sees_nothing users Examples.stale_setting Examples.two_tenants
              eq_refl eq_refl) as [_ H'].
  destruct (H' false eq_refl) as [_ Hm].
  split; [apply Hs|]. split; [apply Hi; reflexivity|].
  refine (proj1 (Hm (fun _ => true) (fun r => r) _)).
  right. exists (RUser Examples.alice_row). split; [|split; reflexivity].
  vm_compute. right. right. right. left. reflexivity.
Defined.

Lemma default_tenant_submitted_witness :
  RegisterPage.tenantId
    (RegisterPage.fetchTenants_resume
       (Resolved (mkResponse 200 (TenantsBody [(js "t-1", js "Acme"); (js "t-2", js "Globex")])))
       (RegisterPage.mkForm [] [] [] [] [] [] false))
  = js "t-1".
Proof.
  pose proof (default_tenant_submitted 200 [(js "t-1", js "Acme"); (js "t-2", js "Globex")]
                (RegisterPage.mkForm [] [] [] [] [] [] false) (init None)) as H.
  cbv zeta in H. destruct H as (_ & _ & H & _).
  exact (proj1 (H (js "t-1", js "Acme") [(js "t-2", js "Globex")] eq_refl)).
Defined.

Lemma response_401_step (s : client) (id : nat) (c : config) (r : reply) :
  pending s !! id = Some (AwaitingServer, c) ->
  should_refresh c r = true ->
  wire_log (step (Response id r) s) = RefreshCall id :: wire_log s /\
  pending (step (Response id r) s) !! id = Some (AwaitingRefresh, with_retry c).
Proof.
  intros Hp Hr. cbn. rewrite Hp, (should_refresh_not_ok _ _ Hr).
  unfold on_error. rewrite Hr. cbn. split; [reflexivity|apply lookup_insert_eq].
Qed.

Lemma refresh_ok_step
    (s : client) (id : nat) (c : config) (r : reply) (resp : response) (t : jsstring) :
  pending s !! id = Some (AwaitingRefresh, c) ->
  ok r = Some resp ->
  access_token_of (rdata resp) = Some t ->
  t <> [] ->
  accessToken (step (RefreshResponse id r) s) = Some t /\
  exists c',
    pending (step (RefreshResponse id r) s) !! id = Some (AwaitingServer, c') /\
    wire_log (step (RefreshResponse id r) s) = ApiRequest id c' :: wire_log s /\
    Authorization c' = Some (js "Bearer " ++ t) /\
    url c' = url c /\ http_method c' = http_method c /\ data c' = data c /\
    _retry c' = _retry c.
Proof.
  intros Hp Hok Ht Hne. cbn. rewrite Hp. unfold on_refresh. rewrite Hok, Ht.
  destruct (rdata resp); try discriminate. cbn [is_null access_token_of] in *.
  split; [reflexivity|]. eexists. split; [apply lookup_insert_eq|].
  split; [reflexivity|]. cbn. unfold request_interceptor.
  destruct t as [|x t]; [congruence|]. cbn. repeat split.
Qed.


(** X27. A request to a URL without /auth/ that meets an expired token
    recovers without the caller noticing: it goes out, comes back 401, one
    refresh call is made, and when that succeeds with a non-empty token
    the request goes out once more with the new token. If the second
    answer is 2xx the caller's promise resolves with it; if it fails, 401
    included, the promise is rejected with that error and no second
    refresh is made. The user and the location are untouched throughout
    and the new token stays in memory. *)
Theorem expired_token_recovery
    (s : client) (m : method) (u : jsstring) (d : payload)
    (r1 rr r2 : reply) (resp : response) (t : jsstring) :
  includes u (js "/auth/") = false ->
  status_is 401 r1 = true ->
  ok rr = Some resp -> access_token_of (rdata resp) = Some t -> t <> [] ->
  let id := next_id s in
  let cfg := request_interceptor (accessToken s) (Traffic.plain_config m u d) in
  let cfg' := with_Authorization (js "Bearer " ++ t) (with_retry cfg) in
  let s' := run [Call m u d; Response id r1; RefreshResponse id rr; Response id r2] s in
  wire_log s' = ApiRequest id cfg' :: RefreshCall id :: ApiRequest id cfg :: wire_log s /\
  accessToken s' = Some t /\ user s' = user s /\ pathname s' = pathname s /\
  pending s' !! id = None /\
  settled s' !! id =
    Some match ok r2 with
         | Some resp2 => Resolved resp2
         | None => Rejected (ApiError cfg' r2)
         end.
Proof.
  intros Hu H401 Hrr Ht Hne. cbv zeta.
  set (cfg := request_interceptor (accessToken s) (Traffic.plain_config m u d)).
  assert (Hauth : isAuthEndpoint cfg = false).
  { unfold cfg. rewrite (isAuthEndpoint_url _ (Traffic.plain_config m u d))
      by apply request_interceptor_url.
    unfold isAuthEndpoint. cbn. exact Hu. }
  assert (Hretry : _retry cfg = false) by (unfold cfg; now rewrite request_interceptor_retry).
  assert (Hsr : should_refresh cfg r1 = true).
  { unfold should_refresh. now rewrite H401, Hretry, Hauth. }
  assert (Hnok : ok r1 = None) by (eapply should_refresh_not_ok; eauto).
  destruct t as [|x t]; [congruence|].
  unfold run. cbn [fold_left].
  (* the call *)
  set (s1 := step (Call m u d) s).
  assert (H1 : pending s1 !! next_id s = Some (AwaitingServer, cfg))
    by (unfold s1; cbn; apply lookup_insert_eq).
  (* the first answer *)
  destruct (response_401_step s1 (next_id s) cfg r1 H1 Hsr) as (Hw2 & Hp2).
  set (s2 := step (Response (next_id s) r1) s1) in *.
  (* the refresh result *)
  destruct (refresh_ok_step s2 (next_id s) (with_retry cfg) rr resp (x :: t)
              Hp2 Hrr Ht Hne) as (Htok & c3 & Hp3 & Hw3 & Ha3 & Hu3 & Hm3 & Hd3 & Hr3).
  set (s3 := step (RefreshResponse (next_id s) rr) s2) in *.
  assert (Hc3 : c3 = with_Authorization (js "Bearer " ++ x :: t) (with_retry cfg)).
  { destruct c3 as [cu cm cd ca cr]. cbn in *. subst. reflexivity. }
  subst c3.
  (* the second answer *)
  assert (Hus : user s3 = user s /\ pathname s3 = pathname s).
  { unfold s3, s2, s1. cbn. rewrite lookup_insert_eq, Hnok. unfold on_error.
    fold (Traffic.plain_config m u d). fold cfg. rewrite Hsr. cbn.
    rewrite lookup_insert_eq. unfold on_refresh. rewrite Hrr.
    destruct (rdata resp); try discriminate. split; reflexivity. }
  destruct Hus as [Hus Hps].
  assert (Hnr : should_refresh (with_Authorization (js "Bearer " ++ x :: t) (with_retry cfg)) r2
                = false).
  { unfold should_refresh. cbn. now rewrite andb_false_r. }
  assert (Hw1 : wire_log s1 = ApiRequest (next_id s) cfg :: wire_log s) by reflexivity.
  clearbody s3 s2 s1.
  cbn [step]. rewrite Hp3. destruct (ok r2) as [resp2|].
  - cbn. rewrite Hw3, Hw2, Hw1, lookup_delete_eq, lookup_insert_eq.
    repeat split; assumption.
  - unfold on_error. rewrite Hnr. cbn.
    rewrite Hw3, Hw2, Hw1, lookup_delete_eq, lookup_insert_eq. repeat split; assumption.
Qed.

Lemma expired_token_recovery_witness :
  let s' := run [listDatasets; Response 0 Examples.unauthorized;
                 RefreshResponse 0 (Examples.refreshed (js "fresh"));
                 Response 0 (Some (mkResponse 200 OtherBody))] Examples.logged_in in
  accessToken s' = Some (js "fresh") /\
  settled s' !! 0 = Some (Resolved (mkResponse 200 OtherBody)).
Proof.
  cbv zeta.
  pose proof (expired_token_recovery Examples.logged_in GET (js "/datasets") []
                Examples.unauthorized (Examples.refreshed (js "fresh"))
                (Some (mkResponse 200 OtherBody)) _ (js "fresh")
                eq_refl eq_refl eq_refl eq_refl ltac:(discriminate)) as H.
  cbv zeta in H. destruct H as (_ & H1 & _ & _ & _ & H2). split; [exact H1 | exact H2].
Defined.

